(** * SampleApplication: the sample harness of the ANGLE samples

    A shallow embedding of [samples/sample_util/SampleApplication.cpp]:
    the back-end selection done by the constructor, and the life cycle
    [prepareToRun] / [runIteration] / [run] / [exit] that drives the window
    and the EGL context.

    A [const char *] is modelled by the [string] of the characters that
    precede its terminator.  The window, the EGL context, the timer and the
    overridable hooks are not part of the file: they are taken as an
    interface ([Platform]) acting on a state of their own, and every call
    the harness makes to them is recorded, in order, with its answer. *)

From Stdlib Require Import String Ascii List ZArith NArith Bool Lia.
Import ListNotations.

Local Open Scope string_scope.
Local Open Scope Z_scope.
Local Open Scope list_scope.

(** * Part I: the model *)

(** ** C string functions used by the file *)

Module CString.

(** [strcmp] yields a negative, zero or positive integer; characters are
    compared as [unsigned char]. *)
Fixpoint strcmp (a b : string) : Z :=
  match a, b with
  | EmptyString, EmptyString => 0
  | EmptyString, String _ _ => -1
  | String _ _, EmptyString => 1
  | String c a', String d b' =>
      if Ascii.eqb c d then strcmp a' b'
      else if (N_of_ascii c <? N_of_ascii d)%N then -1 else 1
  end.

(** [strncmp] compares at most [n] characters. *)
Fixpoint strncmp (a b : string) (n : nat) {struct n} : Z :=
  match n with
  | O => 0
  | S n' =>
      match a, b with
      | EmptyString, EmptyString => 0
      | EmptyString, String _ _ => -1
      | String _ _, EmptyString => 1
      | String c a', String d b' =>
          if Ascii.eqb c d then strncmp a' b' n'
          else if (N_of_ascii c <? N_of_ascii d)%N then -1 else 1
      end
  end.

Definition strlen (a : string) : nat := String.length a.

(** Pointer arithmetic [p + n] on a string of at least [n] characters. *)
Fixpoint advance (p : string) (n : nat) {struct n} : string :=
  match n, p with
  | O, _ => p
  | S n', String _ p' => advance p' n'
  | S _, EmptyString => EmptyString
  end.

End CString.

(** ** EGL enumerants and parameter blocks *)

(** Modelled from the spec: the [EGL_PLATFORM_ANGLE_TYPE_*] macros come from
    the EGL extension header, which is not part of the file; the data model
    lists the renderers as an enumeration, next to the default one. *)
Inductive EGLRenderer : Set :=
| EGL_PLATFORM_ANGLE_TYPE_DEFAULT_ANGLE
| EGL_PLATFORM_ANGLE_TYPE_D3D9_ANGLE
| EGL_PLATFORM_ANGLE_TYPE_D3D11_ANGLE
| EGL_PLATFORM_ANGLE_TYPE_OPENGL_ANGLE
| EGL_PLATFORM_ANGLE_TYPE_OPENGLES_ANGLE
| EGL_PLATFORM_ANGLE_TYPE_NULL_ANGLE
| EGL_PLATFORM_ANGLE_TYPE_VULKAN_ANGLE.

(** Modelled from the spec: the [EGL_PLATFORM_ANGLE_DEVICE_TYPE_*] macros,
    absent from the file as well; the data model has the two device types. *)
Inductive EGLDeviceType : Set :=
| EGL_PLATFORM_ANGLE_DEVICE_TYPE_HARDWARE_ANGLE
| EGL_PLATFORM_ANGLE_DEVICE_TYPE_SWIFTSHADER_ANGLE.

(** The two members of [EGLPlatformParameters] the file writes. *)
Record EGLPlatformParameters : Set := {
  renderer : EGLRenderer;
  deviceType : EGLDeviceType
}.

(** The members of [ConfigParameters] the file writes. *)
Record ConfigParameters : Set := {
  redBits : Z;
  greenBits : Z;
  blueBits : Z;
  alphaBits : Z;
  depthBits : Z;
  stencilBits : Z
}.

(** ** Back-end selection (the anonymous namespace) *)

Definition kUseAngleArg : string := "--use-angle=".

Definition DisplayTypeInfo : Set := (string * EGLRenderer)%type.

Definition kDisplayTypes : list DisplayTypeInfo := [
  ("d3d9", EGL_PLATFORM_ANGLE_TYPE_D3D9_ANGLE);
  ("d3d11", EGL_PLATFORM_ANGLE_TYPE_D3D11_ANGLE);
  ("gl", EGL_PLATFORM_ANGLE_TYPE_OPENGL_ANGLE);
  ("gles", EGL_PLATFORM_ANGLE_TYPE_OPENGLES_ANGLE);
  ("null", EGL_PLATFORM_ANGLE_TYPE_NULL_ANGLE);
  ("vulkan", EGL_PLATFORM_ANGLE_TYPE_VULKAN_ANGLE);
  ("swiftshader", EGL_PLATFORM_ANGLE_TYPE_VULKAN_ANGLE)
].

(** The range-for of [GetDisplayTypeFromArg] over a table; the line it
    prints on the console is not part of the model. *)
Fixpoint scanDisplayTypes (table : list DisplayTypeInfo) (displayTypeArg : string)
  : EGLRenderer :=
  match table with
  | [] => EGL_PLATFORM_ANGLE_TYPE_DEFAULT_ANGLE
  | displayTypeInfo :: rest =>
      if CString.strcmp (fst displayTypeInfo) displayTypeArg =? 0
      then snd displayTypeInfo
      else scanDisplayTypes rest displayTypeArg
  end.

Definition GetDisplayTypeFromArg (displayTypeArg : string) : EGLRenderer :=
  scanDisplayTypes kDisplayTypes displayTypeArg.

Definition GetDeviceTypeFromArg (displayTypeArg : string) : EGLDeviceType :=
  if CString.strcmp displayTypeArg "swiftshader" =? 0
  then EGL_PLATFORM_ANGLE_DEVICE_TYPE_SWIFTSHADER_ANGLE
  else EGL_PLATFORM_ANGLE_DEVICE_TYPE_HARDWARE_ANGLE.

(** The lookup in the words of the specification: the renderer of the first
    entry whose name is the token, the default renderer when there is none. *)
Definition first_match_renderer (token : string) : EGLRenderer :=
  match find (fun entry => String.eqb (fst entry) token) kDisplayTypes with
  | Some entry => snd entry
  | None => EGL_PLATFORM_ANGLE_TYPE_DEFAULT_ANGLE
  end.

(** The part of the constructor that reads the command line: [params0] is
    the default-constructed [EGLPlatformParameters]; [argv] holds the [argc]
    strings that [main] received.  Were [argv] shorter than [argc] says,
    reading [argv[1]] would be undefined; the model then keeps the
    defaults. *)
Definition parsePlatformParams (params0 : EGLPlatformParameters)
  (argc : Z) (argv : list string) : EGLPlatformParameters :=
  let mPlatformParams :=
    {| renderer := EGL_PLATFORM_ANGLE_TYPE_DEFAULT_ANGLE;
       deviceType := deviceType params0 |} in
  if argc >? 1 then
    match nth_error argv 1 with
    | Some argv1 =>
        if CString.strncmp argv1 kUseAngleArg (CString.strlen kUseAngleArg) =? 0
        then
          let arg := CString.advance argv1 (CString.strlen kUseAngleArg) in
          {| renderer := GetDisplayTypeFromArg arg;
             deviceType := GetDeviceTypeFromArg arg |}
        else mPlatformParams
    | None => mPlatformParams
    end
  else mPlatformParams.

(** ** Events of the window *)

(** Modelled from the spec: the [Event] type belongs to the window
    collaborator; the harness tells the close event from all other kinds. *)
Inductive EventType : Set :=
| EVENT_CLOSED
| EVENT_OTHER (kind : N).

Record Event : Set := { Type_ : EventType }.

Definition EventType_eqb (a b : EventType) : bool :=
  match a, b with
  | EVENT_CLOSED, EVENT_CLOSED => true
  | EVENT_OTHER j, EVENT_OTHER k => N.eqb j k
  | _, _ => false
  end.

(** ** Numbers of the timer *)

(** The harness only subtracts two [double]s, narrows the difference to
    [float] and stores [0.0]; the arithmetic itself is left to the instance. *)
Class Clock : Type := {
  double : Type;
  float : Type;
  double_zero : double;
  double_sub : double -> double -> double;
  static_cast_float : double -> float
}.

Section Harness.

Context {clock : Clock}.

(** ** The members of [SampleApplication] *)

Record App : Type := {
  mName : string;
  mWidth : N;
  mHeight : N;
  mRunning : bool;
  mPrevTime : double;
  mPlatformParams : EGLPlatformParameters
}.

Definition set_mRunning (b : bool) (a : App) : App :=
  {| mName := mName a; mWidth := mWidth a; mHeight := mHeight a;
     mRunning := b; mPrevTime := mPrevTime a;
     mPlatformParams := mPlatformParams a |}.

Definition set_mPrevTime (t : double) (a : App) : App :=
  {| mName := mName a; mWidth := mWidth a; mHeight := mHeight a;
     mRunning := mRunning a; mPrevTime := t;
     mPlatformParams := mPlatformParams a |}.

(** ** Calls that leave the harness *)

(** One constructor per call to a collaborator or to an overridable hook,
    with the arguments the harness passes and the answer it receives. *)
Inductive Call : Type :=
| OSWindow_initialize (name : string) (width height : N) (ok : bool)
| OSWindow_setVisible (visible : bool)
| OSWindow_hasOwnLoop (own : bool)
| OSWindow_runOwnLoop
| OSWindow_popEvent (event : option Event)
| OSWindow_messageLoop
| OSWindow_destroy
| EGLWindow_initializeGL (params : EGLPlatformParameters)
    (config : ConfigParameters) (ok : bool)
| EGLWindow_setSwapInterval (interval : Z) (ok : bool)
| EGLWindow_swap
| EGLWindow_destroyGL
| angle_LoadGLES
| Timer_start
| Timer_getElapsedTime (elapsed : double)
| Hook_initialize (ok : bool)
| Hook_destroy
| Hook_step (dt : float) (totalTime : double)
| Hook_draw.

(** ** The collaborators *)

(** [Ext] is everything outside the harness members: the window with its
    event queue, the EGL context, the timer, the loaded library and the
    state of the concrete sample.  The hooks are virtual: a sample
    overrides them.  The harness members are private, so an override is
    given [Ext] to act on, which covers popping events ahead of the drain,
    and the one thing it can do to the members is to call [exit]: for each
    hook a second function tells whether the override calls [exit] while it
    runs.  An override that re-enters [run] is outside the model.
    [os_pending] bounds the events the queue can still deliver, see
    [queue_is_finite].  [os_runOwnLoop] receives the two delegates and may
    not return, hence the [option]. *)
Class Platform : Type := {
  Ext : Type;
  os_new : Z -> Z -> Ext;
  os_initialize : string -> N -> N -> Ext -> bool * Ext;
  os_setVisible : bool -> Ext -> Ext;
  os_hasOwnLoop : Ext -> bool;
  os_popEvent : Ext -> option Event * Ext;
  os_pending : Ext -> nat;
  os_messageLoop : Ext -> Ext;
  os_destroy : Ext -> Ext;
  egl_initializeGL : EGLPlatformParameters -> ConfigParameters -> Ext -> bool * Ext;
  egl_setSwapInterval : Z -> Ext -> bool * Ext;
  egl_swap : Ext -> Ext;
  egl_destroyGL : Ext -> Ext;
  load_gles : Ext -> Ext;
  timer_start : Ext -> Ext;
  timer_getElapsedTime : Ext -> double;
  hook_initialize : Ext -> bool * Ext;
  hook_destroy : Ext -> Ext;
  hook_step : float -> double -> Ext -> Ext;
  hook_draw : Ext -> Ext;
  initialize_exits : Ext -> bool;
  destroy_exits : Ext -> bool;
  step_exits : float -> double -> Ext -> bool;
  draw_exits : Ext -> bool;
  os_runOwnLoop :
    (App * Ext -> Z * (App * Ext) * list Call) ->
    (App * Ext -> Z * (App * Ext) * list Call) ->
    App * Ext -> option (Z * (App * Ext) * list Call)
}.

Context {platform : Platform}.

(** [os_pending] counts the events the queue still holds: each successful
    [popEvent] takes one away. *)
Definition queue_is_finite : Prop :=
  forall e event e', os_popEvent e = (Some event, e') ->
    (os_pending e' < os_pending e)%nat.

(** ** State and call record threaded through the methods *)

Definition World : Type := (App * Ext)%type.

Definition self (w : World) : App := fst w.
Definition ext (w : World) : Ext := snd w.

Definition M (A : Type) : Type := World -> A * World * list Call.

Definition ret {A : Type} (a : A) : M A := fun w => (a, w, []).

Definition bind {A B : Type} (m : M A) (k : A -> M B) : M B :=
  fun w =>
    let '(a, w1, c1) := m w in
    let '(b, w2, c2) := k a w1 in
    (b, w2, c1 ++ c2).

Definition result_of {A : Type} (r : A * World * list Call) : A := fst (fst r).
Definition world_of {A : Type} (r : A * World * list Call) : World := snd (fst r).
Definition calls_of {A : Type} (r : A * World * list Call) : list Call := snd r.

(** A method that may not return. *)
Definition MO (A : Type) : Type := World -> option (A * World * list Call).

Definition retO {A : Type} (a : A) : MO A := fun w => Some (a, w, []).

Definition bindO {A B : Type} (m : MO A) (k : A -> MO B) : MO B :=
  fun w =>
    match m w with
    | None => None
    | Some (a, w1, c1) =>
        match k a w1 with
        | None => None
        | Some (b, w2, c2) => Some (b, w2, c1 ++ c2)
        end
    end.

Definition lift {A : Type} (m : M A) : MO A := fun w => Some (m w).

Definition get_app {A : Type} (f : App -> A) : M A := fun w => (f (self w), w, []).
Definition modify_app (f : App -> App) : M unit :=
  fun w => (tt, (f (self w), ext w), []).

(** A call that only changes the collaborators. *)
Definition call_void (c : Call) (f : Ext -> Ext) : M unit :=
  fun w => (tt, (self w, f (ext w)), [c]).

(** A call whose answer is recorded with it. *)
Definition call_with {A : Type} (c : A -> Call) (f : Ext -> A * Ext) : M A :=
  fun w => let '(a, e) := f (ext w) in (a, (self w, e), [c a]).

Definition get_ext {A : Type} (f : Ext -> A) : M A := fun w => (f (ext w), w, []).

(** The members after a hook that did, or did not, call [exit]. *)
Definition after_hook (exited : bool) (a : App) : App :=
  if exited then set_mRunning false a else a.

(** A virtual call: the override acts on the collaborators and may call
    [exit]. *)
Definition hook_void (c : Call) (f : Ext -> Ext) (exits : Ext -> bool) : M unit :=
  fun w => (tt, (after_hook (exits (ext w)) (self w), f (ext w)), [c]).

Definition hook_with {A : Type} (c : A -> Call) (f : Ext -> A * Ext)
  (exits : Ext -> bool) : M A :=
  fun w =>
    let '(a, e) := f (ext w) in
    (a, (after_hook (exits (ext w)) (self w), e), [c a]).

Notation "x <- m ;; k" := (bind m (fun x => k))
  (at level 61, m at next level, right associativity).
Notation "m ;; k" := (bind m (fun _ => k))
  (at level 61, right associativity).
Notation "x <-- m ;; k" := (bindO m (fun x => k))
  (at level 61, m at next level, right associativity).

(** ** The constructor *)

(** [params0] is the default-constructed [EGLPlatformParameters];
    [mPrevTime] is not in the initialiser list, [prevTime0] stands for the
    value it happens to hold. *)
Definition SampleApplication (name : string) (argc : Z) (argv : list string)
  (glesMajorVersion glesMinorVersion : Z) (width height : N)
  (params0 : EGLPlatformParameters) (prevTime0 : double) : World :=
  ({| mName := name; mWidth := width; mHeight := height;
      mRunning := false; mPrevTime := prevTime0;
      mPlatformParams := parsePlatformParams params0 argc argv |},
   os_new glesMajorVersion glesMinorVersion).

(** The configuration of the application built from [argc] and [argv]. *)
Definition configuration (name : string) (major minor : Z) (width height : N)
  (params0 : EGLPlatformParameters) (prevTime0 : double)
  (argc : Z) (argv : list string) : EGLPlatformParameters :=
  mPlatformParams
    (self (SampleApplication name argc argv major minor width height
             params0 prevTime0)).

(** ** Hooks and small methods *)

Definition initialize : M bool :=
  hook_with Hook_initialize hook_initialize initialize_exits.

Definition destroy : M unit := hook_void Hook_destroy hook_destroy destroy_exits.

Definition step (dt : float) (totalTime : double) : M unit :=
  hook_void (Hook_step dt totalTime) (hook_step dt totalTime)
    (step_exits dt totalTime).

Definition draw : M unit := hook_void Hook_draw hook_draw draw_exits.

Definition swap : M unit := call_void EGLWindow_swap egl_swap.

Definition exit : M unit := modify_app (set_mRunning false).

Definition popEvent : M (option Event) := call_with OSWindow_popEvent os_popEvent.

(** ** prepareToRun *)

(** The [ConfigParameters] that [prepareToRun] fills in. *)
Definition prepareToRun_configParams : ConfigParameters :=
  {| redBits := 8; greenBits := 8; blueBits := 8; alphaBits := 8;
     depthBits := 24; stencilBits := 8 |}.

Definition prepareToRun : M Z :=
  call_void (OSWindow_setVisible true) (os_setVisible true) ;;
  let configParams := prepareToRun_configParams in
  params <- get_app mPlatformParams ;;
  glOk <- call_with (EGLWindow_initializeGL params configParams)
            (egl_initializeGL params configParams) ;;
  if negb glOk then ret (-1)
  else
    (* Disable vsync *)
    swapOk <- call_with (EGLWindow_setSwapInterval 0) (egl_setSwapInterval 0) ;;
    if negb swapOk then ret (-1)
    else
      call_void angle_LoadGLES load_gles ;;
      modify_app (set_mRunning true) ;;
      initOk <- initialize ;;
      if negb initOk then
        modify_app (set_mRunning false) ;;
        ret (-1)
      else
        call_void Timer_start timer_start ;;
        modify_app (set_mPrevTime double_zero) ;;
        ret 0.

(** ** runIteration *)

(** The loop [while (popEvent(&event))], unfolded at most [n] times.
    [runIteration] unfolds it once more than the queue holds events, which
    is exact for a finite queue: the last [popEvent] then finds it empty. *)
Fixpoint drainEvents (n : nat) : M unit :=
  match n with
  | O => ret tt
  | S n' =>
      popped <- popEvent ;;
      match popped with
      | None => ret tt
      | Some event =>
          (if EventType_eqb (Type_ event) EVENT_CLOSED then exit else ret tt) ;;
          drainEvents n'
      end
  end.

Definition runIteration : M Z :=
  elapsedTime <- call_with Timer_getElapsedTime
                   (fun e => (timer_getElapsedTime e, e)) ;;
  prevTime <- get_app mPrevTime ;;
  let deltaTime := double_sub elapsedTime prevTime in
  step (static_cast_float deltaTime) elapsedTime ;;
  (* Clear events that the application did not process from this frame *)
  pending <- get_ext os_pending ;;
  drainEvents (S pending) ;;
  running <- get_app mRunning ;;
  if negb running then ret 0
  else
    draw ;;
    swap ;;
    call_void OSWindow_messageLoop os_messageLoop ;;
    modify_app (set_mPrevTime elapsedTime) ;;
    ret 0.

(** ** run *)

(** The loop [while (mRunning) runIteration();]: [None] when [fuel]
    iterations did not bring [mRunning] down. *)
Fixpoint whileRunning (fuel : nat) : MO unit :=
  match fuel with
  | O => fun _ => None
  | S fuel' =>
      running <-- lift (get_app mRunning) ;;
      if running then (_ <-- lift runIteration ;; whileRunning fuel')
      else retO tt
  end.

(** The statements after the [if]/[else] of [run]. *)
Definition teardown (result : Z) : M Z :=
  destroy ;;
  call_void EGLWindow_destroyGL egl_destroyGL ;;
  call_void OSWindow_destroy os_destroy ;;
  ret result.

Definition run (fuel : nat) : MO Z :=
  name <-- lift (get_app mName) ;;
  width <-- lift (get_app mWidth) ;;
  height <-- lift (get_app mHeight) ;;
  winOk <-- lift (call_with (OSWindow_initialize name width height)
                    (os_initialize name width height)) ;;
  if negb winOk then retO (-1)
  else
    own <-- lift (call_with OSWindow_hasOwnLoop (fun e => (os_hasOwnLoop e, e))) ;;
    if own then
      (* The Window platform has its own message loop *)
      _ <-- lift (call_void OSWindow_runOwnLoop (fun e => e)) ;;
      result <-- os_runOwnLoop prepareToRun runIteration ;;
      lift (teardown result)
    else
      result <-- lift prepareToRun ;;
      if negb (result =? 0) then retO result
      else
        _ <-- whileRunning fuel ;;
        lift (teardown result).

(** ** Vocabulary of the properties *)

(** The statements of [runIteration] up to and including the event drain;
    the value is [elapsedTime]. *)
Definition untilDrained : M double :=
  elapsedTime <- call_with Timer_getElapsedTime
                   (fun e => (timer_getElapsedTime e, e)) ;;
  prevTime <- get_app mPrevTime ;;
  let deltaTime := double_sub elapsedTime prevTime in
  step (static_cast_float deltaTime) elapsedTime ;;
  pending <- get_ext os_pending ;;
  drainEvents (S pending) ;;
  ret elapsedTime.

(** Whether the step hook of this iteration calls [exit], and whether its
    draw hook does. *)
Definition step_exited (w : World) : bool :=
  let elapsedTime := timer_getElapsedTime (ext w) in
  step_exits (static_cast_float (double_sub elapsedTime (mPrevTime (self w))))
    elapsedTime (ext w).

Definition draw_exited (w : World) : bool :=
  draw_exits (ext (world_of (untilDrained w))).

(** The state of the collaborators in which [prepareToRun] calls the
    initialize hook, and whether the hook then calls [exit]. *)
Definition initializeState (w : World) : Ext :=
  load_gles
    (snd (egl_setSwapInterval 0
            (snd (egl_initializeGL (mPlatformParams (self w))
                    prepareToRun_configParams
                    (os_setVisible true (ext w)))))).

Definition initialize_exited (w : World) : bool :=
  initialize_exits (initializeState w).

Definition is_pop (c : Call) : Prop :=
  match c with OSWindow_popEvent _ => True | _ => False end.

(** The three ways [prepareToRun] can fail, read off the recorded calls. *)
Definition initializeGL_failed (calls : list Call) : bool :=
  existsb (fun c => match c with
                    | EGLWindow_initializeGL _ _ ok => negb ok
                    | _ => false
                    end) calls.

Definition setSwapInterval_failed (calls : list Call) : bool :=
  existsb (fun c => match c with
                    | EGLWindow_setSwapInterval 0 ok => negb ok
                    | _ => false
                    end) calls.

Definition initialize_failed (calls : list Call) : bool :=
  existsb (fun c => match c with
                    | Hook_initialize ok => negb ok
                    | _ => false
                    end) calls.

(** The answer of the window to [initialize] at the start of [run], and the
    state [run] continues from when the answer is [true]. *)
Definition windowInitialize (w : World) : bool * Ext :=
  os_initialize (mName (self w)) (mWidth (self w)) (mHeight (self w)) (ext w).

Definition afterWindowInitialize (w : World) : World :=
  (self w, snd (windowInitialize w)).

Definition own_loop_path (w : World) : Prop :=
  fst (windowInitialize w) = true
  /\ os_hasOwnLoop (snd (windowInitialize w)) = true.

Definition explicit_loop_path (w : World) : Prop :=
  fst (windowInitialize w) = true
  /\ os_hasOwnLoop (snd (windowInitialize w)) = false.

End Harness.

(** ** The life cycle as a transition system *)

Section LifeCycle.

Context {clock : Clock} {platform : Platform}.

(** What a call of the harness did, as far as [mRunning] is concerned. *)
Inductive Action : Set :=
| Act_prepareToRun (result : Z)
| Act_runIteration (closeSeen : bool)
| Act_exit.

(** Whether the drain popped a close event. *)
Definition close_popped (calls : list Call) : bool :=
  existsb (fun c =>
             match c with
             | OSWindow_popEvent (Some event) =>
                 EventType_eqb (Type_ event) EVENT_CLOSED
             | _ => false
             end) calls.

(** The states the members can be in, with the history that led there,
    newest action first.  Between two calls the collaborators move on by
    themselves: events arrive, time passes. *)
Inductive reachable : list Action -> World -> Prop :=
| reach_constructed name argc argv major minor width height params0 prevTime0 :
    reachable [] (SampleApplication name argc argv major minor width height
                    params0 prevTime0)
| reach_prepareToRun h w :
    reachable h w ->
    reachable (Act_prepareToRun (result_of (prepareToRun w)) :: h)
      (world_of (prepareToRun w))
| reach_runIteration h w :
    reachable h w ->
    reachable (Act_runIteration (close_popped (calls_of (runIteration w))) :: h)
      (world_of (runIteration w))
| reach_exit h w :
    reachable h w ->
    reachable (Act_exit :: h) (world_of (exit w))
| reach_outside h w e :
    reachable h w ->
    reachable h (self w, e).

(** An action that is neither an explicit exit nor an iteration that saw
    a close event. *)
Definition keeps_running (a : Action) : bool :=
  match a with
  | Act_exit => false
  | Act_runIteration closeSeen => negb closeSeen
  | Act_prepareToRun _ => true
  end.

(** The three teardown calls of [run], in their order. *)
Definition teardown_calls : list Call :=
  [Hook_destroy; EGLWindow_destroyGL; OSWindow_destroy].

Definition ends_with_teardown (calls : list Call) : Prop :=
  exists before, calls = before ++ teardown_calls.

(** A call that is none of the three teardown calls. *)
Definition keeps_up (c : Call) : bool :=
  match c with
  | Hook_destroy | EGLWindow_destroyGL | OSWindow_destroy => false
  | _ => true
  end.

End LifeCycle.

(** ** A test double of the collaborators *)

Module Mock.

(** Time in milliseconds. *)
#[export] Instance clock : Clock := {|
  double := Z;
  float := Z;
  double_zero := 0;
  double_sub := Z.sub;
  static_cast_float := fun d => d
|}.

Record State : Set := {
  queue : list Event;
  arrivals : list (list Event);
  now : Z;
  gl_answers : list bool;
  swap_ok : bool;
  init_ok : bool;
  win_ok : bool;
  own_loop : bool;
  own_frames : nat
}.

Definition with_queue (q : list Event) (s : State) : State :=
  {| queue := q; arrivals := arrivals s; now := now s;
     gl_answers := gl_answers s; swap_ok := swap_ok s; init_ok := init_ok s;
     win_ok := win_ok s; own_loop := own_loop s; own_frames := own_frames s |}.

(** The pump delivers the next batch of events and lets a frame go by. *)
Definition pump (s : State) : State :=
  {| queue := queue s ++ hd [] (arrivals s); arrivals := tl (arrivals s);
     now := now s + 16;
     gl_answers := gl_answers s; swap_ok := swap_ok s; init_ok := init_ok s;
     win_ok := win_ok s; own_loop := own_loop s; own_frames := own_frames s |}.

Definition pop (s : State) : option Event * State :=
  match queue s with
  | [] => (None, s)
  | event :: rest => (Some event, with_queue rest s)
  end.

(** Successive context initialisations answer from [gl_answers]. *)
Definition initializeGL (s : State) : bool * State :=
  (hd true (gl_answers s),
   {| queue := queue s; arrivals := arrivals s; now := now s;
      gl_answers := tl (gl_answers s); swap_ok := swap_ok s;
      init_ok := init_ok s; win_ok := win_ok s; own_loop := own_loop s;
      own_frames := own_frames s |}).

Definition restart (s : State) : State :=
  {| queue := queue s; arrivals := arrivals s; now := 0;
     gl_answers := gl_answers s; swap_ok := swap_ok s; init_ok := init_ok s;
     win_ok := win_ok s; own_loop := own_loop s; own_frames := own_frames s |}.

Definition Callback : Type :=
  App * State -> Z * (App * State) * list Call.

Fixpoint frames (n : nat) (iterate : Callback) (w : App * State)
  : App * State * list Call :=
  match n with
  | O => (w, [])
  | S n' =>
      let '(_, w1, c1) := iterate w in
      let '(w2, c2) := frames n' iterate w1 in
      (w2, c1 ++ c2)
  end.

(** An own loop that prepares, then runs [own_frames] iterations. *)
Definition runOwnLoop (prepare iterate : Callback) (w : App * State)
  : option (Z * (App * State) * list Call) :=
  let '(r, w1, c1) := prepare w in
  if r =? 0 then
    let '(w2, c2) := frames (own_frames (snd w1)) iterate w1 in
    Some (0, w2, c1 ++ c2)
  else Some (r, w1, c1).

Definition fresh : State :=
  {| queue := []; arrivals := []; now := 0; gl_answers := [];
     swap_ok := true; init_ok := true; win_ok := true; own_loop := false;
     own_frames := 0 |}.

(** The hooks are those of the base class: [initialize] answers [init_ok],
    the others do nothing. *)
#[export] Instance platform : Platform := {|
  Ext := State;
  os_new := fun _ _ => fresh;
  os_initialize := fun _ _ _ s => (win_ok s, s);
  os_setVisible := fun _ s => s;
  os_hasOwnLoop := own_loop;
  os_popEvent := pop;
  os_pending := fun s => length (queue s);
  os_messageLoop := pump;
  os_destroy := fun s => s;
  egl_initializeGL := fun _ _ => initializeGL;
  egl_setSwapInterval := fun _ s => (swap_ok s, s);
  egl_swap := fun s => s;
  egl_destroyGL := fun s => s;
  load_gles := fun s => s;
  timer_start := restart;
  timer_getElapsedTime := now;
  hook_initialize := fun s => (init_ok s, s);
  hook_destroy := fun s => s;
  hook_step := fun _ _ s => s;
  hook_draw := fun s => s;
  initialize_exits := fun _ => false;
  destroy_exits := fun _ => false;
  step_exits := fun _ _ _ => false;
  draw_exits := fun _ => false;
  os_runOwnLoop := runOwnLoop
|}.

(** The same collaborators under a sample whose overrides of [initialize],
    [step] and [draw] call [exit] as the three flags say; [initialize]
    still answers [init_ok]. *)
Definition quitting (inInitialize inStep inDraw : bool) : Platform := {|
  Ext := State;
  os_new := fun _ _ => fresh;
  os_initialize := fun _ _ _ s => (win_ok s, s);
  os_setVisible := fun _ s => s;
  os_hasOwnLoop := own_loop;
  os_popEvent := pop;
  os_pending := fun s => length (queue s);
  os_messageLoop := pump;
  os_destroy := fun s => s;
  egl_initializeGL := fun _ _ => initializeGL;
  egl_setSwapInterval := fun _ s => (swap_ok s, s);
  egl_swap := fun s => s;
  egl_destroyGL := fun s => s;
  load_gles := fun s => s;
  timer_start := restart;
  timer_getElapsedTime := now;
  hook_initialize := fun s => (init_ok s, s);
  hook_destroy := fun s => s;
  hook_step := fun _ _ s => s;
  hook_draw := fun s => s;
  initialize_exits := fun _ => inInitialize;
  destroy_exits := fun _ => false;
  step_exits := fun _ _ _ => inStep;
  draw_exits := fun _ => inDraw;
  os_runOwnLoop := runOwnLoop
|}.

(** A window that answers [gl] to the context initialisations, holds the
    events [q] and runs its own loop, for [n] frames, when [own] is set. *)
Definition stocked (q : list Event) (gl : list bool) (own : bool) (n : nat)
  : State :=
  {| queue := q; arrivals := []; now := 0; gl_answers := gl;
     swap_ok := true; init_ok := true; win_ok := true; own_loop := own;
     own_frames := n |}.

Definition close : Event := {| Type_ := EVENT_CLOSED |}.
Definition key : Event := {| Type_ := EVENT_OTHER 6 |}.

Definition params0 : EGLPlatformParameters :=
  {| renderer := EGL_PLATFORM_ANGLE_TYPE_DEFAULT_ANGLE;
     deviceType := EGL_PLATFORM_ANGLE_DEVICE_TYPE_HARDWARE_ANGLE |}.

(** A freshly constructed sample over a given collaborator state. *)
Definition sample (s : State) : World :=
  (self (SampleApplication "sample" 1 ["prog"] 2 0 1280 720 params0 0), s).

(** The sample after a first [prepareToRun]. *)
Definition prepared (s : State) : World := world_of (prepareToRun (sample s)).

(** A window that holds a key event and a close event, and an idle one. *)
Definition closing : State := stocked [key; close] [] false 0.
Definition idle : State := stocked [] [] false 0.

(** The sample once the close event has stopped it. *)
Definition stopped : World :=
  (@set_mPrevTime clock 0 (set_mRunning false (self (sample idle))), idle).

(** The calls of a whole [run] over the [closing] window. *)
Definition closing_run : list Call :=
  [OSWindow_initialize "sample" 1280 720 true;
   OSWindow_hasOwnLoop false;
   OSWindow_setVisible true;
   EGLWindow_initializeGL params0 prepareToRun_configParams true;
   EGLWindow_setSwapInterval 0 true;
   angle_LoadGLES; Hook_initialize true; Timer_start;
   @Timer_getElapsedTime clock 0; @Hook_step clock 0 0;
   OSWindow_popEvent (Some key); OSWindow_popEvent (Some close);
   OSWindow_popEvent None;
   Hook_destroy; EGLWindow_destroyGL; OSWindow_destroy].

(** The calls of a [run] whose context initialisation fails. *)
Definition failing_run : list Call :=
  [@OSWindow_initialize clock "sample" 1280 720 true;
   OSWindow_hasOwnLoop false;
   OSWindow_setVisible true;
   EGLWindow_initializeGL params0 prepareToRun_configParams false].

End Mock.

(** ** Frames, call counts and the hooks of the base class *)

(** The bodies the file gives to the four hooks: [initialize] answers
    [true], the others are empty.  They leave the state of the sample and
    of the collaborators alone. *)
Definition SampleApplication_initialize {E : Type} (e : E) : bool * E := (true, e).

Definition SampleApplication_destroy {E : Type} (e : E) : E := e.

Definition SampleApplication_step {E F D : Type} (dt : F) (totalTime : D) (e : E)
  : E := e.

Definition SampleApplication_draw {E : Type} (e : E) : E := e.

Section Frames.

Context {clock : Clock} {platform : Platform}.

(** A sample that overrides none of the hooks: their answers and what they
    do to the collaborators are those of the bodies above. *)
Definition hooks_not_overridden : Prop :=
  (forall e, hook_initialize e = SampleApplication_initialize e)
  /\ (forall e, hook_destroy e = SampleApplication_destroy e)
  /\ (forall dt totalTime e,
        hook_step dt totalTime e = SampleApplication_step dt totalTime e)
  /\ (forall e, hook_draw e = SampleApplication_draw e).

(** Successive calls of [runIteration]; before each of them the
    collaborators have moved on to the next state of [outs]. *)
Fixpoint iterations (outs : list Ext) (w : World) : World * list Call :=
  match outs with
  | [] => (w, [])
  | e :: outs' =>
      let '(_, w1, c1) := runIteration (self w, e) in
      let '(w2, c2) := iterations outs' w1 in
      (w2, c1 ++ c2)
  end.

(** The state after [k] iterations run back to back, as the explicit loop
    of [run] runs them, and the calls they make. *)
Fixpoint afterFrames (k : nat) (w : World) : World :=
  match k with
  | O => w
  | S k' => afterFrames k' (world_of (runIteration w))
  end.

Fixpoint framesCalls (k : nat) (w : World) : list Call :=
  match k with
  | O => []
  | S k' => calls_of (runIteration w) ++ framesCalls k' (world_of (runIteration w))
  end.

(** Two states of the members that agree on what the constructor fixed:
    the name, the size and the platform parameters. *)
Definition same_configuration (a b : App) : Prop :=
  mName a = mName b /\ mWidth a = mWidth b /\ mHeight a = mHeight b
  /\ mPlatformParams a = mPlatformParams b.

(** The state [run] leaves behind once the three teardown calls are made. *)
Definition tornDown (w : World) : World :=
  (after_hook (destroy_exits (ext w)) (self w),
   os_destroy (egl_destroyGL (hook_destroy (ext w)))).

(** The states the members and the collaborators can move to from a given
    one, through [prepareToRun], [runIteration], [exit], a [run] without
    own loop, and whatever the collaborators do by themselves in
    between. *)
Inductive evolves (w0 : World) : World -> Prop :=
| evolves_here : evolves w0 w0
| evolves_prepareToRun w :
    evolves w0 w -> evolves w0 (world_of (prepareToRun w))
| evolves_runIteration w :
    evolves w0 w -> evolves w0 (world_of (runIteration w))
| evolves_exit w :
    evolves w0 w -> evolves w0 (world_of (exit w))
| evolves_run fuel w r w' calls :
    evolves w0 w ->
    os_hasOwnLoop (snd (windowInitialize w)) = false ->
    run fuel w = Some (r, w', calls) ->
    evolves w0 w'
| evolves_outside w e :
    evolves w0 w -> evolves w0 (self w, e).

Definition count_calls (p : Call -> bool) (calls : list Call) : nat :=
  length (filter p calls).

Definition is_step (c : Call) : bool :=
  match c with Hook_step _ _ => true | _ => false end.

Definition is_draw (c : Call) : bool :=
  match c with Hook_draw => true | _ => false end.





End Frames.

(** ** A second test double: the sample as the file defines it *)

Module Plain.

#[local] Existing Instance Mock.clock.

(** The collaborators of [Mock] under the hooks of the base class. *)
Definition platform : Platform := {|
  Ext := Mock.State;
  os_new := fun _ _ => Mock.fresh;
  os_initialize := fun _ _ _ s => (Mock.win_ok s, s);
  os_setVisible := fun _ s => s;
  os_hasOwnLoop := Mock.own_loop;
  os_popEvent := Mock.pop;
  os_pending := fun s => length (Mock.queue s);
  os_messageLoop := Mock.pump;
  os_destroy := fun s => s;
  egl_initializeGL := fun _ _ => Mock.initializeGL;
  egl_setSwapInterval := fun _ s => (Mock.swap_ok s, s);
  egl_swap := fun s => s;
  egl_destroyGL := fun s => s;
  load_gles := fun s => s;
  timer_start := Mock.restart;
  timer_getElapsedTime := Mock.now;
  hook_initialize := SampleApplication_initialize;
  hook_destroy := SampleApplication_destroy;
  hook_step := SampleApplication_step;
  hook_draw := SampleApplication_draw;
  initialize_exits := fun _ => false;
  destroy_exits := fun _ => false;
  step_exits := fun _ _ _ => false;
  draw_exits := fun _ => false;
  os_runOwnLoop := Mock.runOwnLoop
|}.

(** A window that refuses to initialise. *)
Definition windowless : Mock.State :=
  {| Mock.queue := []; Mock.arrivals := []; Mock.now := 0;
     Mock.gl_answers := []; Mock.swap_ok := true; Mock.init_ok := true;
     Mock.win_ok := false; Mock.own_loop := false; Mock.own_frames := 0 |}.

(** A context that refuses to disable vsync. *)
Definition vsynced : Mock.State :=
  {| Mock.queue := []; Mock.arrivals := []; Mock.now := 0;
     Mock.gl_answers := []; Mock.swap_ok := false; Mock.init_ok := true;
     Mock.win_ok := true; Mock.own_loop := false; Mock.own_frames := 0 |}.

(** A window that delivers a key event, then one frame later a close
    event: two drawn frames and a last one that stops. *)
Definition three_frames : Mock.State :=
  {| Mock.queue := [Mock.key]; Mock.arrivals := [[]; [Mock.close]];
     Mock.now := 0; Mock.gl_answers := []; Mock.swap_ok := true;
     Mock.init_ok := true; Mock.win_ok := true; Mock.own_loop := false;
     Mock.own_frames := 0 |}.

(** Where the run over [three_frames] ends, and the calls it makes. *)
Definition three_frames_end : World (platform := Mock.platform) :=
  (@set_mPrevTime Mock.clock 16
     (set_mRunning false (self (Mock.sample Mock.idle))),
   {| Mock.queue := []; Mock.arrivals := []; Mock.now := 32;
      Mock.gl_answers := []; Mock.swap_ok := true; Mock.init_ok := true;
      Mock.win_ok := true; Mock.own_loop := false; Mock.own_frames := 0 |}).

Definition three_frames_run : list Call :=
  [OSWindow_initialize "sample" 1280 720 true;
   OSWindow_hasOwnLoop false;
   OSWindow_setVisible true;
   EGLWindow_initializeGL Mock.params0 prepareToRun_configParams true;
   EGLWindow_setSwapInterval 0 true;
   angle_LoadGLES; Hook_initialize true; Timer_start;
   @Timer_getElapsedTime Mock.clock 0; @Hook_step Mock.clock 0 0;
   OSWindow_popEvent (Some Mock.key); OSWindow_popEvent None;
   Hook_draw; EGLWindow_swap; OSWindow_messageLoop;
   @Timer_getElapsedTime Mock.clock 16; @Hook_step Mock.clock 16 16;
   OSWindow_popEvent None;
   Hook_draw; EGLWindow_swap; OSWindow_messageLoop;
   @Timer_getElapsedTime Mock.clock 32; @Hook_step Mock.clock 16 32;
   OSWindow_popEvent (Some Mock.close); OSWindow_popEvent None;
   Hook_destroy; EGLWindow_destroyGL; OSWindow_destroy].

End Plain.

(** * Part II: properties *)

(** ** The C string functions decide equality and prefixes *)

Section CStringFacts.

Import CString.

Lemma strcmp_refl a : strcmp a a = 0.
Proof.
  induction a as [|c a IH]; simpl; [reflexivity|].
  now rewrite Ascii.eqb_refl.
Qed.

Lemma strcmp_zero_eq a : forall b, strcmp a b = 0 -> a = b.
Proof.
  induction a as [|c a IH]; intros [|d b]; simpl; try discriminate; auto.
  destruct (Ascii.eqb_spec c d) as [->|_].
  - intros H. now rewrite (IH b H).
  - destruct (N_of_ascii c <? N_of_ascii d)%N; discriminate.
Qed.

Lemma strcmp_eqb a b : (strcmp a b =? 0) = String.eqb a b.
Proof.
  destruct (String.eqb_spec a b) as [->|Hne].
  - now rewrite strcmp_refl.
  - apply Z.eqb_neq. intros H. now apply Hne, strcmp_zero_eq.
Qed.

Lemma strncmp_prefix p : forall rest, strncmp (p ++ rest) p (strlen p) = 0.
Proof.
  induction p as [|c p IH]; intros rest; simpl; [reflexivity|].
  now rewrite Ascii.eqb_refl.
Qed.

Lemma strncmp_zero_prefix p :
  forall a, strncmp a p (strlen p) = 0 -> a = (p ++ advance a (strlen p))%string.
Proof.
  induction p as [|c p IH]; intros a; simpl.
  - reflexivity.
  - destruct a as [|d a]; [discriminate|].
    destruct (Ascii.eqb_spec d c) as [->|_].
    + intros H. simpl. now rewrite <- (IH a H).
    + destruct (N_of_ascii d <? N_of_ascii c)%N; discriminate.
Qed.

Lemma advance_prefix p : forall rest, advance (p ++ rest) (strlen p) = rest.
Proof.
  induction p as [|c p IH]; intros rest; simpl; auto.
Qed.

End CStringFacts.

(** ** Back-end selection *)

Lemma scanDisplayTypes_find table arg :
  scanDisplayTypes table arg =
  match find (fun entry => String.eqb (fst entry) arg) table with
  | Some entry => snd entry
  | None => EGL_PLATFORM_ANGLE_TYPE_DEFAULT_ANGLE
  end.
Proof.
  induction table as [|entry table IH]; simpl; [reflexivity|].
  rewrite strcmp_eqb. now destruct (String.eqb (fst entry) arg).
Qed.

Lemma scanDisplayTypes_unknown table arg :
  ~ In arg (map fst table) ->
  scanDisplayTypes table arg = EGL_PLATFORM_ANGLE_TYPE_DEFAULT_ANGLE.
Proof.
  induction table as [|entry table IH]; simpl; [reflexivity|].
  intros Hnot. rewrite strcmp_eqb.
  destruct (String.eqb_spec (fst entry) arg) as [Heq|_].
  - exfalso. apply Hnot. now left.
  - apply IH. intros Hin. apply Hnot. now right.
Qed.

Lemma scanDisplayTypes_first before name r after arg :
  ~ In arg (map fst before) -> name = arg ->
  scanDisplayTypes (before ++ (name, r) :: after) arg = r.
Proof.
  intros Hnot ->. induction before as [|entry before IH]; simpl.
  - now rewrite strcmp_refl.
  - rewrite strcmp_eqb.
    destruct (String.eqb_spec (fst entry) arg) as [Heq|_].
    + exfalso. apply Hnot. now left.
    + apply IH. intros Hin. apply Hnot. now right.
Qed.

(** C3.  [GetDisplayTypeFromArg] scans the fixed table d3d9, d3d11, gl,
    gles, null, vulkan, swiftshader in that order and returns the renderer
    paired with the first entry whose name is exactly the input; an input
    that matches no entry, the empty string included, yields the default
    renderer. *)
Theorem GetDisplayTypeFromArg_first_match :
  map fst kDisplayTypes =
    ["d3d9"; "d3d11"; "gl"; "gles"; "null"; "vulkan"; "swiftshader"]
  /\ (forall arg, GetDisplayTypeFromArg arg = first_match_renderer arg)
  /\ (forall before name r after arg,
        kDisplayTypes = before ++ (name, r) :: after ->
        ~ In arg (map fst before) -> name = arg ->
        GetDisplayTypeFromArg arg = r)
  /\ (forall arg, ~ In arg (map fst kDisplayTypes) ->
        GetDisplayTypeFromArg arg = EGL_PLATFORM_ANGLE_TYPE_DEFAULT_ANGLE)
  /\ GetDisplayTypeFromArg "" = EGL_PLATFORM_ANGLE_TYPE_DEFAULT_ANGLE
  /\ GetDisplayTypeFromArg "Vulkan" = EGL_PLATFORM_ANGLE_TYPE_DEFAULT_ANGLE
  /\ map GetDisplayTypeFromArg (map fst kDisplayTypes) = map snd kDisplayTypes.
Proof.
  split; [reflexivity|].
  split; [intros arg; apply scanDisplayTypes_find|].
  split.
  { intros before name r after arg Htable Hnot Hname.
    unfold GetDisplayTypeFromArg. rewrite Htable.
    now apply scanDisplayTypes_first. }
  split; [intros arg; apply scanDisplayTypes_unknown|].
  repeat split; reflexivity.
Qed.

(** C4.  [GetDeviceTypeFromArg] returns the SwiftShader device type exactly
    for the input "swiftshader", and the hardware device type for every
    other input, renderer names such as "vulkan" included. *)
Theorem GetDeviceTypeFromArg_swiftshader_only :
  (forall arg,
     GetDeviceTypeFromArg arg = EGL_PLATFORM_ANGLE_DEVICE_TYPE_SWIFTSHADER_ANGLE
     <-> arg = "swiftshader")
  /\ (forall arg, arg <> "swiftshader" ->
        GetDeviceTypeFromArg arg = EGL_PLATFORM_ANGLE_DEVICE_TYPE_HARDWARE_ANGLE)
  /\ GetDeviceTypeFromArg "vulkan" = EGL_PLATFORM_ANGLE_DEVICE_TYPE_HARDWARE_ANGLE.
Proof.
  assert (Hcases : forall arg,
    (arg = "swiftshader" /\
     GetDeviceTypeFromArg arg = EGL_PLATFORM_ANGLE_DEVICE_TYPE_SWIFTSHADER_ANGLE)
    \/ (arg <> "swiftshader" /\
        GetDeviceTypeFromArg arg = EGL_PLATFORM_ANGLE_DEVICE_TYPE_HARDWARE_ANGLE)).
  { intros arg. unfold GetDeviceTypeFromArg. rewrite strcmp_eqb.
    destruct (String.eqb_spec arg "swiftshader"); [left|right]; now split. }
  split; [|split].
  - intros arg. destruct (Hcases arg) as [[Heq Hdev]|[Hne Hdev]]; rewrite Hdev.
    + now split.
    + split; [discriminate|contradiction].
  - intros arg Hne. destruct (Hcases arg) as [[Heq _]|[_ Hdev]];
      [contradiction|exact Hdev].
  - reflexivity.
Qed.

(** ** The constructor *)

Lemma parsePlatformParams_flag params0 prog token rest argc :
  1 < argc ->
  parsePlatformParams params0 argc (prog :: (kUseAngleArg ++ token)%string :: rest)
  = {| renderer := GetDisplayTypeFromArg token;
       deviceType := GetDeviceTypeFromArg token |}.
Proof.
  intros Hargc. unfold parsePlatformParams.
  apply Z.gtb_lt in Hargc. rewrite Hargc.
  cbn [nth_error].
  rewrite strncmp_prefix, Z.eqb_refl.
  now rewrite advance_prefix.
Qed.

Lemma parsePlatformParams_no_flag params0 argc argv :
  (argc <= 1 \/
   forall argv1, nth_error argv 1 = Some argv1 ->
                 forall token, argv1 <> (kUseAngleArg ++ token)%string) ->
  parsePlatformParams params0 argc argv
  = {| renderer := EGL_PLATFORM_ANGLE_TYPE_DEFAULT_ANGLE;
       deviceType := deviceType params0 |}.
Proof.
  intros Hno. unfold parsePlatformParams.
  destruct (argc >? 1) eqn:Hargc; [|reflexivity].
  destruct Hno as [Hle|Hno]; [apply Z.gtb_lt in Hargc; lia|].
  destruct (nth_error argv 1) as [argv1|]; [|reflexivity].
  destruct (Z.eqb_spec
              (CString.strncmp argv1 kUseAngleArg (CString.strlen kUseAngleArg)) 0)
    as [Hzero|_]; [|reflexivity].
  exfalso. apply strncmp_zero_prefix in Hzero.
  exact (Hno argv1 eq_refl _ Hzero).
Qed.

Section Constructor.

Context {clock : Clock} {platform : Platform}.

Variables (name : string) (major minor : Z) (width height : N).
Variables (params0 : EGLPlatformParameters) (prevTime0 : double).

Local Abbreviation configured :=
  (configuration name major minor width height params0 prevTime0).

(** C5.  The constructor reads [argv[1]] only, and only when it starts with
    "--use-angle=": the token that follows selects renderer and device type,
    whatever comes after it on the command line; otherwise the renderer is
    the default one.  With "--use-angle=vulkan" the configuration is Vulkan
    on hardware, with "--use-angle=swiftshader" Vulkan on SwiftShader, and
    with no argument the default renderer. *)
Theorem constructor_parses_first_argument :
  (forall prog token rest argc, 1 < argc ->
     configured argc (prog :: (kUseAngleArg ++ token)%string :: rest)
     = {| renderer := GetDisplayTypeFromArg token;
          deviceType := GetDeviceTypeFromArg token |})
  /\ (forall argc argv,
        (argc <= 1 \/
         forall argv1, nth_error argv 1 = Some argv1 ->
                       forall token, argv1 <> (kUseAngleArg ++ token)%string) ->
        configured argc argv
        = {| renderer := EGL_PLATFORM_ANGLE_TYPE_DEFAULT_ANGLE;
             deviceType := deviceType params0 |})
  /\ configured 2 ["prog"; "--use-angle=vulkan"]
     = {| renderer := EGL_PLATFORM_ANGLE_TYPE_VULKAN_ANGLE;
          deviceType := EGL_PLATFORM_ANGLE_DEVICE_TYPE_HARDWARE_ANGLE |}
  /\ configured 2 ["prog"; "--use-angle=swiftshader"]
     = {| renderer := EGL_PLATFORM_ANGLE_TYPE_VULKAN_ANGLE;
          deviceType := EGL_PLATFORM_ANGLE_DEVICE_TYPE_SWIFTSHADER_ANGLE |}
  /\ renderer (configured 1 ["prog"]) = EGL_PLATFORM_ANGLE_TYPE_DEFAULT_ANGLE
  /\ renderer (configured 3 ["prog"; "-v"; "--use-angle=vulkan"])
     = EGL_PLATFORM_ANGLE_TYPE_DEFAULT_ANGLE.
Proof.
  unfold configuration, SampleApplication, self; cbn [fst mPlatformParams].
  split; [intros; now apply parsePlatformParams_flag|].
  split; [intros; now apply parsePlatformParams_no_flag|].
  repeat split; reflexivity.
Qed.

End Constructor.

(** ** prepareToRun *)

Section Prepare.

Context {clock : Clock} {platform : Platform}.

(** The four ways through [prepareToRun]: what it returns, what it leaves
    in the members, and the calls it made. *)
Lemma prepareToRun_cases w :
  let after := prepareToRun w in
  let params := mPlatformParams (self w) in
  let glInit := EGLWindow_initializeGL params prepareToRun_configParams in
  let visible := OSWindow_setVisible true in
  (result_of after = -1 /\ self (world_of after) = self w
   /\ calls_of after = [visible; glInit false])
  \/ (result_of after = -1 /\ self (world_of after) = self w
      /\ calls_of after
         = [visible; glInit true; EGLWindow_setSwapInterval 0 false])
  \/ (result_of after = -1
      /\ self (world_of after) = set_mRunning false (self w)
      /\ calls_of after
         = [visible; glInit true; EGLWindow_setSwapInterval 0 true;
            angle_LoadGLES; Hook_initialize false])
  \/ (result_of after = 0
      /\ self (world_of after)
         = set_mPrevTime double_zero
             (set_mRunning (negb (initialize_exited w)) (self w))
      /\ calls_of after
         = [visible; glInit true; EGLWindow_setSwapInterval 0 true;
            angle_LoadGLES; Hook_initialize true; Timer_start]).
Proof.
  cbv zeta.
  unfold initialize_exited, initializeState.
  unfold prepareToRun, initialize, bind, call_void, call_with, hook_with,
    get_app, modify_app, ret.
  cbn [self ext fst snd].
  destruct (egl_initializeGL _ _ _) as [[|] e2]; cbn [negb self ext fst snd].
  2:{ left. repeat split. }
  destruct (egl_setSwapInterval 0 e2) as [[|] e3]; cbn [negb self ext fst snd].
  2:{ right; left. repeat split. }
  match goal with
  | |- context [hook_initialize ?e] => destruct (hook_initialize e) as [[|] e4]
  end; cbn [negb self ext fst snd];
    destruct (initialize_exits (load_gles e3)); cbn [after_hook negb].
  - right; right; right. repeat split.
  - right; right; right. repeat split.
  - right; right; left. repeat split.
  - right; right; left. repeat split.
Qed.

End Prepare.

(** Case analysis along [prepareToRun_cases]. *)
Ltac prepare_cases w Hr Hs Hc :=
  destruct (prepareToRun_cases w)
    as [(Hr & Hs & Hc)|[(Hr & Hs & Hc)|[(Hr & Hs & Hc)|(Hr & Hs & Hc)]]].

(** ** runIteration *)

Section Iteration.

Context {clock : Clock} {platform : Platform}.

(** The drain touches [mRunning] only, clears it exactly when it pops a
    close event, and calls nothing but [popEvent]. *)
Lemma drainEvents_spec n : forall w,
  self (world_of (drainEvents n w))
  = (if close_popped (calls_of (drainEvents n w))
     then set_mRunning false (self w) else self w)
  /\ Forall is_pop (calls_of (drainEvents n w)).
Proof.
  induction n as [|n IH]; intros w.
  - simpl. split; [reflexivity|constructor].
  - cbn [drainEvents]. unfold bind, popEvent, call_with.
    destruct (os_popEvent (ext w)) as [[event|] e1] eqn:Hpop.
    + destruct (EventType_eqb (Type_ event) EVENT_CLOSED) eqn:Hclosed.
      * unfold exit, modify_app. cbn [self ext fst snd].
        specialize (IH (set_mRunning false (self w), e1)).
        destruct (drainEvents n (set_mRunning false (self w), e1))
          as [[u w2] c2] eqn:Hrest.
        unfold world_of, calls_of in *. cbn [fst snd self] in *.
        simpl close_popped. rewrite Hclosed. cbn [orb].
        destruct IH as [IHapp IHcalls]. split.
        -- rewrite IHapp. now destruct (close_popped c2).
        -- constructor; [exact I|exact IHcalls].
      * unfold ret. cbn [self ext fst snd].
        specialize (IH (self w, e1)).
        destruct (drainEvents n (self w, e1)) as [[u w2] c2] eqn:Hrest.
        unfold world_of, calls_of in *. cbn [fst snd self] in *.
        simpl close_popped. rewrite Hclosed. cbn [orb].
        destruct IH as [IHapp IHcalls]. split.
        -- exact IHapp.
        -- constructor; [exact I|exact IHcalls].
    + unfold ret, world_of, calls_of. cbn. split; [reflexivity|].
      repeat constructor.
Qed.

(** With a finite queue the unfolding is deep enough: the drain stops
    because [popEvent] found the queue empty. *)
Lemma drainEvents_exhausts (Hfinite : queue_is_finite) n : forall w,
  (os_pending (ext w) < n)%nat ->
  exists before, calls_of (drainEvents n w) = before ++ [OSWindow_popEvent None].
Proof.
  induction n as [|n IH]; intros w Hlt; [lia|].
  cbn [drainEvents]. unfold bind, popEvent, call_with.
  destruct (os_popEvent (ext w)) as [[event|] e1] eqn:Hpop.
  - apply Hfinite in Hpop.
    set (k := if EventType_eqb (Type_ event) EVENT_CLOSED then exit else ret tt).
    assert (Hk : exists a, k (self w, e1) = (tt, (a, e1), [])).
    { unfold k. destruct (EventType_eqb (Type_ event) EVENT_CLOSED);
        eexists; reflexivity. }
    destruct Hk as [a Hk]. rewrite Hk.
    destruct (IH (a, e1)) as [before Hbefore]; [cbn; lia|].
    destruct (drainEvents n (a, e1)) as [[u w2] c2].
    unfold calls_of in *. cbn [snd] in *. subst c2.
    exists (OSWindow_popEvent (Some event) :: before). reflexivity.
  - exists []. reflexivity.
Qed.

Lemma untilDrained_eq w :
  let elapsed := timer_getElapsedTime (ext w) in
  let dt := static_cast_float (double_sub elapsed (mPrevTime (self w))) in
  let w1 := (after_hook (step_exited w) (self w), hook_step dt elapsed (ext w)) in
  let d := drainEvents (S (os_pending (ext w1))) w1 in
  untilDrained w
  = (elapsed, world_of d,
     Timer_getElapsedTime elapsed :: Hook_step dt elapsed :: calls_of d).
Proof.
  unfold untilDrained, step_exited, bind, call_with, get_app, get_ext, step,
    hook_void, ret.
  cbn [self ext fst snd].
  destruct (drainEvents _ _) as [[u w2] c2]. cbn.
  now rewrite app_nil_r.
Qed.

(** With a finite queue [runIteration] drains it to the end. *)
Lemma untilDrained_exhausts (Hfinite : queue_is_finite) w :
  exists before,
    calls_of (untilDrained w) = before ++ [OSWindow_popEvent None].
Proof.
  rewrite untilDrained_eq. cbv zeta.
  set (w1 := (after_hook _ (self w), hook_step _ _ (ext w))).
  destruct (drainEvents_exhausts Hfinite (S (os_pending (ext w1))) w1)
    as [before Hbefore]; [lia|].
  unfold calls_of at 1. cbn [snd]. rewrite Hbefore.
  now exists (Timer_getElapsedTime (timer_getElapsedTime (ext w))
              :: Hook_step
                   (static_cast_float
                      (double_sub (timer_getElapsedTime (ext w))
                         (mPrevTime (self w))))
                   (timer_getElapsedTime (ext w))
              :: before).
Qed.

(** [runIteration] is the drain followed, when still running, by draw,
    swap, the message pump and the new baseline. *)
Lemma runIteration_eq w :
  let d := untilDrained w in
  runIteration w
  = if mRunning (self (world_of d)) then
      (0, (set_mPrevTime (result_of d)
             (after_hook (draw_exited w) (self (world_of d))),
           os_messageLoop (egl_swap (hook_draw (ext (world_of d))))),
       calls_of d ++ [Hook_draw; EGLWindow_swap; OSWindow_messageLoop])
    else (0, world_of d, calls_of d).
Proof.
  cbv zeta. unfold draw_exited. rewrite untilDrained_eq.
  unfold runIteration, step_exited, bind, call_with, get_app, get_ext, step,
    draw, swap, hook_void, call_void, ret, modify_app.
  cbn [self ext fst snd].
  destruct (drainEvents _ _) as [[u [a2 e2]] c2].
  unfold world_of, calls_of, result_of. cbn [self ext fst snd].
  destruct (mRunning a2); cbn [negb]; cbn; now rewrite ?app_nil_r.
Qed.

Lemma pops_exclude calls c :
  Forall is_pop calls -> ~ is_pop c -> ~ In c calls.
Proof.
  intros Hall Hc Hin. rewrite Forall_forall in Hall. exact (Hc (Hall c Hin)).
Qed.

(** Up to the drain the harness reads the timer, calls [step] and pops
    events; [mRunning] is cleared when a close event was popped or the
    step hook called [exit], and no other member changes. *)
Lemma untilDrained_spec w :
  self (world_of (untilDrained w))
  = (if close_popped (calls_of (untilDrained w))
     then set_mRunning false (self w)
     else after_hook (step_exited w) (self w))
  /\ result_of (untilDrained w) = timer_getElapsedTime (ext w)
  /\ (forall c, In c [Hook_draw; EGLWindow_swap; OSWindow_messageLoop] ->
                ~ In c (calls_of (untilDrained w))).
Proof.
  rewrite untilDrained_eq. cbv zeta.
  set (w1 := (after_hook _ (self w), hook_step _ _ (ext w))).
  destruct (drainEvents_spec (S (os_pending (ext w1))) w1) as [Hself Hcalls].
  unfold world_of, calls_of, result_of in *. cbn [fst snd] in *.
  split; [|split].
  - rewrite Hself.
    change (close_popped (Timer_getElapsedTime ?t :: Hook_step ?dt ?t' :: ?cs))
      with (close_popped cs).
    destruct (close_popped _); [|reflexivity].
    subst w1. cbn [self fst]. now destruct (step_exited w).
  - reflexivity.
  - intros c Hc Hin.
    destruct Hin as [<-|[<-|Hin]].
    + cbn in Hc. intuition discriminate.
    + cbn in Hc. intuition discriminate.
    + revert Hin. apply pops_exclude; [exact Hcalls|].
      cbn in Hc. destruct Hc as [<-|[<-|[<-|[]]]]; exact (fun f => f).
Qed.

Lemma close_popped_app c1 c2 :
  close_popped (c1 ++ c2) = close_popped c1 || close_popped c2.
Proof. apply existsb_app. Qed.

Lemma runIteration_close_popped w :
  close_popped (calls_of (runIteration w))
  = close_popped (calls_of (untilDrained w)).
Proof.
  rewrite runIteration_eq. cbv zeta.
  destruct (mRunning (self (world_of (untilDrained w)))); [|reflexivity].
  unfold calls_of at 1. cbn [snd]. rewrite close_popped_app. cbn.
  apply orb_false_r.
Qed.

(** On return [mRunning] is what it was after the drain, unless the draw
    hook called [exit]. *)
Lemma runIteration_running w :
  mRunning (self (world_of (runIteration w)))
  = mRunning (self (world_of (untilDrained w))) && negb (draw_exited w).
Proof.
  rewrite runIteration_eq. cbv zeta.
  destruct (mRunning (self (world_of (untilDrained w)))) eqn:Hrun;
    unfold world_of at 1; cbn [fst snd self]; [|exact Hrun].
  destruct (draw_exited w); cbn; [reflexivity|exact Hrun].
Qed.

Lemma untilDrained_running w :
  mRunning (self (world_of (untilDrained w)))
  = mRunning (self w) && negb (step_exited w)
    && negb (close_popped (calls_of (untilDrained w))).
Proof.
  destruct (untilDrained_spec w) as [Hself _]. rewrite Hself.
  destruct (close_popped (calls_of (untilDrained w))); cbn.
  - now rewrite andb_false_r.
  - rewrite andb_true_r. destruct (step_exited w); cbn.
    + now rewrite andb_false_r.
    + now rewrite andb_true_r.
Qed.

(** C2.  When the drain of a [runIteration] call pops a close event,
    [mRunning] is false when the call returns, and the call invokes neither
    the draw hook nor swap. *)
Theorem runIteration_close_event_stops w :
  close_popped (calls_of (runIteration w)) = true ->
  mRunning (self (world_of (runIteration w))) = false
  /\ ~ In Hook_draw (calls_of (runIteration w))
  /\ ~ In EGLWindow_swap (calls_of (runIteration w)).
Proof.
  intros Hclose. rewrite runIteration_close_popped in Hclose.
  assert (Hstop : mRunning (self (world_of (untilDrained w))) = false).
  { rewrite untilDrained_running, Hclose. apply andb_false_r. }
  destruct (untilDrained_spec w) as (_ & _ & Hquiet).
  rewrite runIteration_running, Hstop. split; [reflexivity|].
  rewrite runIteration_eq. cbv zeta. rewrite Hstop.
  unfold calls_of at 1 3. cbn [snd].
  split; apply Hquiet; cbn; auto.
Qed.

(** C10.  [runIteration] finds [mRunning] false after the drain exactly
    when it was false on entry, the step hook called [exit] or the drain
    popped a close event; it then leaves [mPrevTime] as it was and calls
    neither draw, swap nor the message pump.  Otherwise it ends with draw,
    swap and the message pump, in this order, and [mPrevTime] becomes the
    elapsed time read at the start of the iteration. *)
Theorem runIteration_baseline w :
  let running := mRunning (self (world_of (untilDrained w))) in
  let after := runIteration w in
  running = mRunning (self w) && negb (step_exited w)
            && negb (close_popped (calls_of after))
  /\ (running = false ->
      mPrevTime (self (world_of after)) = mPrevTime (self w)
      /\ ~ In OSWindow_messageLoop (calls_of after)
      /\ ~ In Hook_draw (calls_of after)
      /\ ~ In EGLWindow_swap (calls_of after))
  /\ (running = true ->
      mPrevTime (self (world_of after)) = timer_getElapsedTime (ext w)
      /\ exists before,
           calls_of after
           = before ++ [Hook_draw; EGLWindow_swap; OSWindow_messageLoop]
           /\ ~ In Hook_draw before /\ ~ In EGLWindow_swap before
           /\ ~ In OSWindow_messageLoop before).
Proof.
  cbv zeta.
  destruct (untilDrained_spec w) as (Hself & Helapsed & Hquiet).
  split; [|split].
  - rewrite runIteration_close_popped. apply untilDrained_running.
  - intros Hstop. rewrite runIteration_eq. cbv zeta. rewrite Hstop.
    unfold world_of at 1, calls_of at 1 2 3. cbn [fst snd].
    split.
    + rewrite Hself.
      destruct (close_popped (calls_of (untilDrained w))); [reflexivity|].
      now destruct (step_exited w).
    + repeat split; apply Hquiet; cbn; auto.
  - intros Hrun. rewrite runIteration_eq. cbv zeta. rewrite Hrun.
    unfold world_of at 1, calls_of at 1. cbn [fst snd self].
    split.
    + cbn. exact Helapsed.
    + exists (calls_of (untilDrained w)).
      split; [reflexivity|].
      repeat split; apply Hquiet; cbn; auto.
Qed.

End Iteration.

(** ** run *)

Section Run.

Context {clock : Clock} {platform : Platform}.

Lemma teardown_eq result w :
  teardown result w = (result, tornDown w, teardown_calls).
Proof. reflexivity. Qed.

(** The explicit loop leaves only with [mRunning] false. *)
Lemma whileRunning_stops fuel : forall w u w' cs,
  whileRunning fuel w = Some (u, w', cs) -> mRunning (self w') = false.
Proof.
  induction fuel as [|fuel IH]; intros w u w' cs; [discriminate|].
  cbn [whileRunning]. unfold bindO, lift, get_app, retO.
  destruct (mRunning (self w)) eqn:Hrun.
  - destruct (runIteration w) as [[r1 w1] c1].
    destruct (whileRunning fuel w1) as [[[u2 w2] c2]|] eqn:Hrest; [|discriminate].
    intros H. injection H as _ <- _. eapply IH, Hrest.
  - intros H. injection H as _ <- _. exact Hrun.
Qed.

(** More fuel does not change what the loop computes. *)
Lemma whileRunning_more_fuel fuel : forall w x,
  whileRunning fuel w = Some x -> whileRunning (S fuel) w = Some x.
Proof.
  induction fuel as [|fuel IH]; intros w x; [discriminate|].
  intros H. change (whileRunning (S (S fuel)) w) with
    (bindO (lift (get_app mRunning))
       (fun running => if running
                       then bindO (lift runIteration) (fun _ => whileRunning (S fuel))
                       else retO tt) w).
  cbn [whileRunning] in H. unfold bindO, lift, get_app, retO in *.
  destruct (mRunning (self w)); [|exact H].
  destruct (runIteration w) as [[r1 w1] c1].
  destruct (whileRunning fuel w1) as [[[u2 w2] c2]|] eqn:Hrest; [|discriminate].
  now rewrite (IH _ _ Hrest).
Qed.

(** The loop returns at once on a stopped application, and after one more
    iteration when that iteration pops a close event. *)
Lemma whileRunning_returns fuel w :
  (mRunning (self w) = false ->
   whileRunning (S fuel) w = Some (tt, w, []))
  /\ (mRunning (self w) = true ->
      close_popped (calls_of (runIteration w)) = true ->
      whileRunning (S (S fuel)) w
      = Some (tt, world_of (runIteration w), calls_of (runIteration w))).
Proof.
  split.
  - intros Hrun. cbn [whileRunning]. unfold bindO, lift, get_app, retO.
    now rewrite Hrun.
  - intros Hrun Hclose.
    assert (Hstop : mRunning (self (world_of (runIteration w))) = false).
    { rewrite runIteration_running, untilDrained_running.
      rewrite <- runIteration_close_popped, Hclose.
      now rewrite andb_false_r. }
    cbn [whileRunning]. unfold bindO, lift, get_app, retO.
    rewrite Hrun.
    destruct (runIteration w) as [[r1 w1] c1].
    unfold world_of, calls_of in *. cbn [fst snd] in *.
    rewrite Hstop. cbn. now rewrite app_nil_r.
Qed.

(** The four ways through [run]. *)
Lemma run_cases fuel w r w' cs :
  run fuel w = Some (r, w', cs) ->
  let w1 := afterWindowInitialize w in
  let init ok := OSWindow_initialize (mName (self w)) (mWidth (self w))
                   (mHeight (self w)) ok in
  (fst (windowInitialize w) = false /\ r = -1 /\ w' = w1 /\ cs = [init false])
  \/ (own_loop_path w /\
      exists w2 c2,
        os_runOwnLoop prepareToRun runIteration w1 = Some (r, w2, c2)
        /\ w' = tornDown w2
        /\ cs = [init true; OSWindow_hasOwnLoop true; OSWindow_runOwnLoop]
                ++ c2 ++ teardown_calls)
  \/ (explicit_loop_path w /\ r = result_of (prepareToRun w1) /\ r <> 0
      /\ w' = world_of (prepareToRun w1)
      /\ cs = [init true; OSWindow_hasOwnLoop false]
              ++ calls_of (prepareToRun w1))
  \/ (explicit_loop_path w /\ r = result_of (prepareToRun w1) /\ r = 0
      /\ exists w3 c3,
           whileRunning fuel (world_of (prepareToRun w1)) = Some (tt, w3, c3)
           /\ w' = tornDown w3
           /\ cs = [init true; OSWindow_hasOwnLoop false]
                   ++ calls_of (prepareToRun w1) ++ c3 ++ teardown_calls).
Proof.
  cbv zeta. unfold own_loop_path, explicit_loop_path, afterWindowInitialize.
  unfold run, bindO, lift, get_app, call_with, call_void, retO.
  fold (windowInitialize w).
  destruct (windowInitialize w) as [winOk e1]. cbn [self ext fst snd negb].
  destruct winOk; cbn [negb self ext fst snd].
  2:{ intros H. injection H as <- <- <-. left. now repeat split. }
  destruct (os_hasOwnLoop e1) eqn:Hown; cbn [self ext fst snd].
  - destruct (os_runOwnLoop prepareToRun runIteration (self w, e1))
      as [[[r2 w2] c2]|] eqn:Hloop; [|discriminate].
    rewrite teardown_eq. intros H. injection H as <- <- <-.
    right; left. split; [now split|].
    exists w2, c2. repeat split.
  - destruct (prepareToRun (self w, e1)) as [[r2 w2] c2] eqn:Hprep.
    unfold result_of, world_of, calls_of. cbn [fst snd].
    destruct (Z.eqb_spec r2 0) as [->|Hne]; cbn [negb].
    + destruct (whileRunning fuel w2) as [[[u3 w3] c3]|] eqn:Hloop; [|discriminate].
      rewrite teardown_eq. intros H. injection H as <- <- <-.
      right; right; right. split; [now split|]. split; [reflexivity|].
      split; [reflexivity|]. destruct u3. exists w3, c3. repeat split.
    + intros H. injection H as <- <- <-.
      right; right; left. split; [now split|]. split; [reflexivity|].
      split; [exact Hne|]. split; [reflexivity|]. cbn. now rewrite app_nil_r.
Qed.

(** Nothing before the end of [run] tears anything down: the calls of
    [prepareToRun], of an iteration and of the explicit loop contain none
    of the three teardown calls. *)
Lemma prepareToRun_no_teardown w :
  forallb keeps_up (calls_of (prepareToRun w)) = true.
Proof.
  prepare_cases w Hr Hs Hc; rewrite Hc; reflexivity.
Qed.

Lemma pops_keep_up calls :
  Forall is_pop calls -> forallb keeps_up calls = true.
Proof.
  induction 1 as [|c calls Hc _ IH]; [reflexivity|].
  cbn [forallb]. rewrite IH. now destruct c.
Qed.

Lemma runIteration_no_teardown w :
  forallb keeps_up (calls_of (runIteration w)) = true.
Proof.
  assert (Hdrain : forallb keeps_up (calls_of (untilDrained w)) = true).
  { rewrite untilDrained_eq. cbv zeta. unfold calls_of at 1. cbn [snd forallb].
    apply pops_keep_up, drainEvents_spec. }
  rewrite runIteration_eq. cbv zeta.
  destruct (mRunning (self (world_of (untilDrained w))));
    unfold calls_of at 1; cbn [snd]; [|exact Hdrain].
  rewrite forallb_app, Hdrain. reflexivity.
Qed.

Lemma whileRunning_no_teardown fuel : forall w u w' cs,
  whileRunning fuel w = Some (u, w', cs) -> forallb keeps_up cs = true.
Proof.
  induction fuel as [|fuel IH]; intros w u w' cs; [discriminate|].
  cbn [whileRunning]. unfold bindO, lift, get_app, retO.
  destruct (mRunning (self w)).
  - pose proof (runIteration_no_teardown w) as Hiter.
    destruct (runIteration w) as [[r1 w1] c1].
    destruct (whileRunning fuel w1) as [[[u2 w2] c2]|] eqn:Hrest; [|discriminate].
    intros H. injection H as _ _ <-.
    unfold calls_of in Hiter. cbn [snd] in Hiter.
    cbn [List.app]. now rewrite forallb_app, Hiter, (IH _ _ _ _ Hrest).
  - intros H. injection H as _ _ <-. reflexivity.
Qed.

(** The explicit loop walks through reachable states. *)
Lemma whileRunning_reachable fuel : forall h w u w' cs,
  reachable h w -> whileRunning fuel w = Some (u, w', cs) ->
  exists h', reachable (h' ++ h) w'.
Proof.
  induction fuel as [|fuel IH]; intros h w u w' cs Hreach; [discriminate|].
  cbn [whileRunning]. unfold bindO, lift, get_app, retO.
  destruct (mRunning (self w)).
  - pose proof (reach_runIteration _ _ Hreach) as Hstep.
    destruct (runIteration w) as [[r1 w1] c1].
    unfold world_of in Hstep. cbn [fst snd] in Hstep.
    destruct (whileRunning fuel w1) as [[[u2 w2] c2]|] eqn:Hrest; [|discriminate].
    intros H. injection H as _ <- _.
    destruct (IH _ _ _ _ _ Hstep Hrest) as [h' Hh'].
    eexists (h' ++ [_]). rewrite <- app_assoc. exact Hh'.
  - intros H. injection H as _ <- _. exists []. exact Hreach.
Qed.

(** Without an own loop, [run] takes a reachable state to a reachable one:
    it is made of [prepareToRun], iterations and calls that change the
    collaborators only. *)
Lemma run_reachable fuel h w r w' cs :
  reachable h w -> os_hasOwnLoop (snd (windowInitialize w)) = false ->
  run fuel w = Some (r, w', cs) ->
  exists h', reachable (h' ++ h) w'.
Proof.
  intros Hreach Hexplicit Hrun.
  pose proof (reach_outside _ _ (snd (windowInitialize w)) Hreach) as Hwin.
  fold (afterWindowInitialize w) in Hwin.
  pose proof (reach_prepareToRun _ _ Hwin) as Hprep.
  destruct (run_cases _ _ _ _ _ Hrun)
    as [(_ & _ & -> & _)|[([_ Hown] & _)|
         [(_ & _ & _ & -> & _)|(_ & _ & _ & w3 & c3 & Hloop & -> & _)]]].
  - exists []. exact Hwin.
  - congruence.
  - eexists [_]. exact Hprep.
  - destruct (whileRunning_reachable _ _ _ _ _ _ Hprep Hloop) as [h' Hh'].
    unfold tornDown. destruct (destroy_exits (ext w3)); cbn [after_hook].
    + exists (Act_exit :: h' ++ [Act_prepareToRun
                                   (result_of (prepareToRun
                                                 (afterWindowInitialize w)))]).
      cbn [List.app]. rewrite <- app_assoc.
      apply (reach_outside _ (world_of (exit w3))).
      apply reach_exit. exact Hh'.
    + eexists (h' ++ [_]). rewrite <- app_assoc.
      apply (reach_outside _ w3). exact Hh'.
Qed.

End Run.

(** ** Results of prepareToRun, runIteration and run *)

Section Results.

Context {clock : Clock} {platform : Platform}.

Lemma prepareToRun_running w :
  mRunning (self (world_of (prepareToRun w)))
  = if result_of (prepareToRun w) =? 0 then negb (initialize_exited w)
    else mRunning (self w)
         && negb (initialize_failed (calls_of (prepareToRun w))).
Proof.
  prepare_cases w Hr Hs Hc; rewrite Hr, Hs, Hc; cbn; try reflexivity.
  - now rewrite andb_true_r.
  - now rewrite andb_true_r.
  - now rewrite andb_false_r.
Qed.

(** C1, as the code has it.  [prepareToRun] returns a negative result
    exactly when context initialisation fails, disabling vsync fails or the
    initialize hook reports failure, and 0 otherwise.  On a failure
    [mRunning] is false on return whenever it was false on entry, and a
    failure of the initialize hook clears it whatever it was; on success
    [mRunning] is true unless the initialize hook itself called [exit]. *)
Theorem prepareToRun_failure_causes w :
  let after := prepareToRun w in
  let failed :=
    initializeGL_failed (calls_of after)
    || setSwapInterval_failed (calls_of after)
    || initialize_failed (calls_of after) in
  (result_of after < 0 <-> failed = true)
  /\ (result_of after = 0 <-> failed = false)
  /\ (result_of after < 0 -> mRunning (self w) = false ->
      mRunning (self (world_of after)) = false)
  /\ (initialize_failed (calls_of after) = true ->
      mRunning (self (world_of after)) = false)
  /\ (result_of after = 0 ->
      mRunning (self (world_of after)) = negb (initialize_exited w)).
Proof.
  cbv zeta.
  prepare_cases w Hr Hs Hc; rewrite Hr, Hs, Hc; cbn;
    repeat split; intros; try lia; try discriminate; try reflexivity; auto.
Qed.

(** C9.  [runIteration] returns 0 from every state, whatever events it
    pops, and the value [run] returns on the explicit-loop path is the one
    [prepareToRun] returned: the results of the iterations play no part. *)
Theorem runIteration_returns_zero :
  (forall w, result_of (runIteration w) = 0)
  /\ (forall fuel w r w' cs,
        explicit_loop_path w ->
        run fuel w = Some (r, w', cs) ->
        r = result_of (prepareToRun (afterWindowInitialize w))).
Proof.
  split.
  - intros w. rewrite runIteration_eq. cbv zeta.
    now destruct (mRunning (self (world_of (untilDrained w)))).
  - intros fuel w r w' cs [Hwin Hown] Hrun.
    destruct (run_cases _ _ _ _ _ Hrun)
      as [(Hno & _)|[([_ Hown'] & _)|[(_ & Hr & _)|(_ & Hr & _)]]].
    + rewrite Hwin in Hno. discriminate.
    + rewrite Hown in Hown'. discriminate.
    + exact Hr.
    + exact Hr.
Qed.

(** C8, as the code has it.  When [run] returns on the own-loop path, or on
    the explicit-loop path after a successful [prepareToRun], its last three
    calls are the destroy hook, [destroyGL] and the window's [destroy], in
    this order; on the explicit-loop path none of the three is called
    before. *)
Theorem run_teardown_order fuel w r w' cs :
  run fuel w = Some (r, w', cs) ->
  own_loop_path w
  \/ (explicit_loop_path w
      /\ result_of (prepareToRun (afterWindowInitialize w)) = 0) ->
  ends_with_teardown cs
  /\ (explicit_loop_path w ->
      exists before,
        cs = before ++ teardown_calls /\ forallb keeps_up before = true).
Proof.
  intros Hrun Hpath. unfold ends_with_teardown.
  destruct (run_cases _ _ _ _ _ Hrun)
    as [(Hno & _)|[([_ Hown] & w2 & c2 & _ & _ & ->)|
         [([_ Hexp] & Hr & Hne & _)|(_ & _ & _ & w3 & c3 & Hloop & _ & ->)]]].
  - destruct Hpath as [[Hwin _]|[[Hwin _] _]]; rewrite Hwin in Hno;
      discriminate.
  - split.
    + eexists. rewrite app_assoc. reflexivity.
    + intros [_ Hexp]. congruence.
  - destruct Hpath as [[_ Hown]|[_ Hok]]; congruence.
  - assert (Hbefore :
      exists before,
        [OSWindow_initialize (mName (self w)) (mWidth (self w))
           (mHeight (self w)) true; OSWindow_hasOwnLoop false]
        ++ calls_of (prepareToRun (afterWindowInitialize w)) ++ c3
        ++ teardown_calls
        = before ++ teardown_calls /\ forallb keeps_up before = true).
    { eexists. split; [rewrite 2 app_assoc; reflexivity|].
      rewrite !forallb_app, prepareToRun_no_teardown.
      now rewrite (whileRunning_no_teardown _ _ _ _ _ Hloop). }
    destruct Hbefore as (before & Heq & Hup).
    split; [exists before; exact Heq|].
    intros _. exists before. now split.
Qed.

(** On the explicit-loop path [run] returns as soon as the loop does. *)
Lemma run_returns fuel w u w3 c3 :
  explicit_loop_path w ->
  result_of (prepareToRun (afterWindowInitialize w)) = 0 ->
  whileRunning fuel (world_of (prepareToRun (afterWindowInitialize w)))
  = Some (u, w3, c3) ->
  exists w' cs, run fuel w = Some (0, w', cs).
Proof.
  intros [Hwin Hown] Hok Hloop.
  unfold afterWindowInitialize in *.
  unfold run, bindO, lift, get_app, call_with, call_void, retO.
  fold (windowInitialize w).
  destruct (windowInitialize w) as [winOk e1]. cbn [self ext fst snd negb] in *.
  subst winOk. cbn [negb self ext fst snd]. rewrite Hown.
  cbn [self ext fst snd].
  destruct (prepareToRun (self w, e1)) as [[r2 w2] c2].
  unfold result_of, world_of in *. cbn [fst snd] in *. subst r2.
  cbn [Z.eqb negb]. rewrite Hloop, teardown_eq. eauto.
Qed.

End Results.

(** ** The running flag over the life cycle *)

Section Running.

Context {clock : Clock} {platform : Platform}.

Lemma exit_eq w : exit w = (tt, (set_mRunning false (self w), ext w), []).
Proof. reflexivity. Qed.

(** C7.  [exit] is idempotent: a second call changes nothing, a call on a
    stopped application changes nothing, and [exit] calls no collaborator. *)
Theorem exit_idempotent w :
  world_of (exit (world_of (exit w))) = world_of (exit w)
  /\ (mRunning (self w) = false -> world_of (exit w) = w)
  /\ mRunning (self (world_of (exit w))) = false
  /\ calls_of (exit w) = [].
Proof.
  rewrite !exit_eq. unfold world_of, calls_of. cbn [fst snd self ext].
  repeat split.
  destruct w as [[name width height running prevTime params] e].
  cbn. now intros ->.
Qed.

(** A running application was prepared successfully, and has neither seen
    a close event nor been told to exit since. *)
Lemma reachable_running h w :
  reachable h w -> mRunning (self w) = true ->
  exists later earlier,
    h = later ++ Act_prepareToRun 0 :: earlier
    /\ forallb keeps_running later = true.
Proof.
  induction 1 as [| h w Hreach IH | h w Hreach IH | h w Hreach IH
                  | h w e Hreach IH]; intros Hrun.
  - discriminate.
  - rewrite prepareToRun_running in Hrun.
    destruct (Z.eqb_spec (result_of (prepareToRun w)) 0) as [->|Hne].
    + exists [], h. now split.
    + apply andb_prop in Hrun. destruct Hrun as [Hrun _].
      destruct (IH Hrun) as (later & earlier & -> & Hquiet).
      exists (Act_prepareToRun (result_of (prepareToRun w)) :: later), earlier.
      now split.
  - rewrite runIteration_running, untilDrained_running in Hrun.
    rewrite <- runIteration_close_popped in Hrun.
    apply andb_prop in Hrun. destruct Hrun as [Hrun _].
    apply andb_prop in Hrun. destruct Hrun as [Hrun Hquiet'].
    apply andb_prop in Hrun. destruct Hrun as [Hrun _].
    destruct (IH Hrun) as (later & earlier & -> & Hquiet).
    exists (Act_runIteration (close_popped (calls_of (runIteration w))) :: later),
      earlier.
    split; [reflexivity|]. cbn [forallb keeps_running].
    now rewrite Hquiet', Hquiet.
  - rewrite exit_eq in Hrun. discriminate.
  - apply IH. exact Hrun.
Qed.

(** C6, as the code has it.  [mRunning] is false after construction; after
    a [prepareToRun] that returns success it is true unless the initialize
    hook itself called [exit] during that call; it is false after [exit],
    whatever it was before; and in every reachable state it is true only if
    a successful [prepareToRun] lies in the past with no close event and no
    [exit] since. *)
Theorem running_lifecycle :
  (forall name argc argv major minor width height params0 prevTime0,
     mRunning (self (SampleApplication name argc argv major minor width height
                       params0 prevTime0)) = false)
  /\ (forall w, result_of (prepareToRun w) = 0 ->
                mRunning (self (world_of (prepareToRun w)))
                = negb (initialize_exited w))
  /\ (forall w, mRunning (self (world_of (exit w))) = false)
  /\ (forall h w, reachable h w -> mRunning (self w) = true ->
        exists later earlier,
          h = later ++ Act_prepareToRun 0 :: earlier
          /\ forallb keeps_running later = true).
Proof.
  split; [reflexivity|].
  split.
  { intros w Hok. rewrite prepareToRun_running, Hok. reflexivity. }
  split; [reflexivity|].
  exact reachable_running.
Qed.

End Running.

(** ** The properties on the test double *)

Section OnTheTestDouble.

Import Mock.


(** A prepared sample whose window holds a key event and a close event:
    the iteration pops both, stops, and draws nothing. *)
Example closing_frame :
  runIteration (prepared closing)
  = (0, stopped,
     [Timer_getElapsedTime 0; Hook_step 0 0;
      OSWindow_popEvent (Some key); OSWindow_popEvent (Some close);
      OSWindow_popEvent None]).
Proof. vm_compute. reflexivity. Qed.

(** A frame with a key event only is drawn, swapped and pumped. *)
Example drawn_frame :
  calls_of (runIteration (prepared (stocked [key] [] false 0)))
  = [Timer_getElapsedTime 0; Hook_step 0 0;
     OSWindow_popEvent (Some key); OSWindow_popEvent None;
     Hook_draw; EGLWindow_swap; OSWindow_messageLoop].
Proof. vm_compute. reflexivity. Qed.

(** C1 as stated fails twice.  A second [prepareToRun] on a running
    application whose context initialisation fails returns -1 and leaves
    [mRunning] true; and a [prepareToRun] whose initialize hook calls
    [exit] and answers true returns 0 and leaves [mRunning] false. *)
Lemma prepareToRun_failure_leaves_running :
  result_of (prepareToRun (sample (stocked [] [true; false] false 0))) = 0
  /\ result_of (prepareToRun (prepared (stocked [] [true; false] false 0))) = -1
  /\ initializeGL_failed
       (calls_of (prepareToRun (prepared (stocked [] [true; false] false 0))))
     = true
  /\ mRunning
       (self (world_of
                (prepareToRun (prepared (stocked [] [true; false] false 0)))))
     = true
  /\ result_of (prepareToRun (platform := quitting true false false)
                  (sample idle)) = 0
  /\ mRunning
       (self (world_of (prepareToRun (platform := quitting true false false)
                          (sample idle))))
     = false.
Proof. repeat split; vm_compute; reflexivity. Qed.

(** C6 as stated fails: when the override of [initialize] calls [exit] and
    answers true, [prepareToRun] goes through all its calls, returns 0 and
    leaves [mRunning] false. *)
Lemma prepareToRun_success_after_exit :
  result_of (prepareToRun (platform := quitting true false false)
               (sample idle)) = 0
  /\ calls_of (prepareToRun (platform := quitting true false false)
                 (sample idle))
     = [OSWindow_setVisible true;
        EGLWindow_initializeGL params0 prepareToRun_configParams true;
        EGLWindow_setSwapInterval 0 true; angle_LoadGLES;
        Hook_initialize true; Timer_start]
  /\ initialize_exited (platform := quitting true false false) (sample idle)
     = true
  /\ mRunning
       (self (world_of (prepareToRun (platform := quitting true false false)
                          (sample idle))))
     = false.
Proof. repeat split; vm_compute; reflexivity. Qed.

Lemma prepareToRun_failure_causes_witness :
  result_of (prepareToRun (sample (stocked [] [false] false 0))) < 0
  /\ mRunning (self (sample (stocked [] [false] false 0))) = false
  /\ mRunning
       (self (world_of (prepareToRun (sample (stocked [] [false] false 0)))))
     = false.
Proof.
  split; [vm_compute; reflexivity|]. split; [reflexivity|].
  apply (proj1 (proj2 (proj2
           (prepareToRun_failure_causes (sample (stocked [] [false] false 0))))));
    vm_compute; reflexivity.
Defined.

Lemma runIteration_close_event_stops_witness :
  close_popped (calls_of (runIteration (prepared closing))) = true
  /\ (mRunning (self (world_of (runIteration (prepared closing)))) = false
      /\ ~ In Hook_draw (calls_of (runIteration (prepared closing)))
      /\ ~ In EGLWindow_swap (calls_of (runIteration (prepared closing)))).
Proof.
  split; [vm_compute; reflexivity|].
  apply runIteration_close_event_stops. vm_compute. reflexivity.
Defined.

(** C8 as stated fails: on the explicit-loop path a failing [prepareToRun]
    makes [run] return at once, after a successful window initialisation
    and without any of the three teardown calls. *)
Lemma run_failure_skips_teardown :
  explicit_loop_path (sample (stocked [] [false] false 0))
  /\ run 3 (sample (stocked [] [false] false 0))
     = Some (-1, sample idle, failing_run)
  /\ ~ ends_with_teardown failing_run
  /\ ~ In Hook_destroy failing_run
  /\ ~ In EGLWindow_destroyGL failing_run
  /\ ~ In OSWindow_destroy failing_run.
Proof.
  split; [split; reflexivity|]. split; [vm_compute; reflexivity|].
  split.
  { intros [before Hends]. apply (f_equal (@rev Call)) in Hends.
    rewrite rev_app_distr in Hends. discriminate. }
  repeat split; intros Hin; cbn in Hin;
    repeat (destruct Hin as [Hin|Hin]; [discriminate|]); exact Hin.
Qed.

Lemma run_teardown_order_witness :
  run 3 (sample closing) = Some (0, stopped, closing_run)
  /\ ends_with_teardown closing_run.
Proof.
  split; [vm_compute; reflexivity|].
  refine (proj1 (run_teardown_order 3 (sample closing) 0 stopped closing_run
                   _ _)).
  - vm_compute. reflexivity.
  - right. split; [split; reflexivity|vm_compute; reflexivity].
Defined.

(** On the own-loop path the teardown follows a failed preparation too. *)
Example own_loop_failure_teardown :
  run 0 (sample (stocked [] [false] true 2))
  = Some (-1, sample (stocked [] [] true 2),
          [OSWindow_initialize "sample" 1280 720 true;
           OSWindow_hasOwnLoop true; OSWindow_runOwnLoop;
           OSWindow_setVisible true;
           EGLWindow_initializeGL params0 prepareToRun_configParams false;
           Hook_destroy; EGLWindow_destroyGL; OSWindow_destroy]).
Proof. vm_compute. reflexivity. Qed.

Lemma runIteration_returns_zero_witness :
  explicit_loop_path (sample closing)
  /\ 0 = result_of (prepareToRun (afterWindowInitialize (sample closing))).
Proof.
  split; [split; reflexivity|].
  apply (proj2 runIteration_returns_zero 3%nat (sample closing) 0 stopped
           closing_run).
  - split; reflexivity.
  - vm_compute. reflexivity.
Defined.

Lemma running_lifecycle_witness :
  mRunning (self (world_of (runIteration (prepared (stocked [key] [] false 0)))))
  = true
  /\ exists later earlier,
       [Act_runIteration false; Act_prepareToRun 0]
       = later ++ Act_prepareToRun 0 :: earlier
       /\ forallb keeps_running later = true.
Proof.
  split; [vm_compute; reflexivity|].
  apply (proj2 (proj2 (proj2 running_lifecycle))
           [Act_runIteration false; Act_prepareToRun 0]
           (world_of (runIteration (prepared (stocked [key] [] false 0))))).
  - exact (reach_runIteration _ _
             (reach_prepareToRun _ _
                (reach_outside _ _ (stocked [key] [] false 0)
                   (reach_constructed "sample" 1 ["prog"] 2 0 1280 720
                      params0 0%Z)))).
  - vm_compute. reflexivity.
Defined.

End OnTheTestDouble.

(** * Part III: further properties of the code *)

(** ** Back-end selection, read backwards *)

Lemma GetDeviceTypeFromArg_swiftshader_eq arg :
  GetDeviceTypeFromArg arg = EGL_PLATFORM_ANGLE_DEVICE_TYPE_SWIFTSHADER_ANGLE ->
  arg = "swiftshader".
Proof.
  unfold GetDeviceTypeFromArg. rewrite strcmp_eqb.
  destruct (String.eqb_spec arg "swiftshader"); [auto|discriminate].
Qed.

Lemma GetDeviceTypeFromArg_other arg :
  arg <> "swiftshader" ->
  GetDeviceTypeFromArg arg = EGL_PLATFORM_ANGLE_DEVICE_TYPE_HARDWARE_ANGLE.
Proof.
  intros Hne. unfold GetDeviceTypeFromArg. rewrite strcmp_eqb.
  destruct (String.eqb_spec arg "swiftshader"); [contradiction|reflexivity].
Qed.

(** X1.  Which tokens select which renderer: each of Direct3D 9,
    Direct3D 11, OpenGL, OpenGL ES and Null is selected by its one token,
    Vulkan by "vulkan" and by "swiftshader", and the default renderer by
    exactly the strings that are not in the table. *)
Theorem GetDisplayTypeFromArg_tokens arg :
  (GetDisplayTypeFromArg arg = EGL_PLATFORM_ANGLE_TYPE_D3D9_ANGLE
   <-> arg = "d3d9")
  /\ (GetDisplayTypeFromArg arg = EGL_PLATFORM_ANGLE_TYPE_D3D11_ANGLE
      <-> arg = "d3d11")
  /\ (GetDisplayTypeFromArg arg = EGL_PLATFORM_ANGLE_TYPE_OPENGL_ANGLE
      <-> arg = "gl")
  /\ (GetDisplayTypeFromArg arg = EGL_PLATFORM_ANGLE_TYPE_OPENGLES_ANGLE
      <-> arg = "gles")
  /\ (GetDisplayTypeFromArg arg = EGL_PLATFORM_ANGLE_TYPE_NULL_ANGLE
      <-> arg = "null")
  /\ (GetDisplayTypeFromArg arg = EGL_PLATFORM_ANGLE_TYPE_VULKAN_ANGLE
      <-> arg = "vulkan" \/ arg = "swiftshader")
  /\ (GetDisplayTypeFromArg arg = EGL_PLATFORM_ANGLE_TYPE_DEFAULT_ANGLE
      <-> ~ In arg (map fst kDisplayTypes)).
Proof.
  unfold GetDisplayTypeFromArg, kDisplayTypes.
  cbn [scanDisplayTypes fst snd map In]. rewrite !strcmp_eqb.
  destruct (String.eqb_spec "d3d9" arg) as [<-|H1].
  { repeat split; intros; try discriminate; try tauto;
      intuition discriminate. }
  destruct (String.eqb_spec "d3d11" arg) as [<-|H2].
  { repeat split; intros; try discriminate; try tauto;
      intuition discriminate. }
  destruct (String.eqb_spec "gl" arg) as [<-|H3].
  { repeat split; intros; try discriminate; try tauto;
      intuition discriminate. }
  destruct (String.eqb_spec "gles" arg) as [<-|H4].
  { repeat split; intros; try discriminate; try tauto;
      intuition discriminate. }
  destruct (String.eqb_spec "null" arg) as [<-|H5].
  { repeat split; intros; try discriminate; try tauto;
      intuition discriminate. }
  destruct (String.eqb_spec "vulkan" arg) as [<-|H6].
  { repeat split; intros; try discriminate; try tauto;
      intuition discriminate. }
  destruct (String.eqb_spec "swiftshader" arg) as [<-|H7].
  { repeat split; intros; try discriminate; try tauto;
      intuition discriminate. }
  repeat split; intros; try discriminate; try congruence; intuition congruence.
Qed.

(** X2.  Starting from a hardware default, the constructor configures the
    SwiftShader device type only for the Vulkan renderer, and exactly when
    [argc] exceeds 1 and [argv[1]] is "--use-angle=swiftshader". *)
Theorem swiftshader_device_means_vulkan params0 argc argv :
  deviceType params0 = EGL_PLATFORM_ANGLE_DEVICE_TYPE_HARDWARE_ANGLE ->
  deviceType (parsePlatformParams params0 argc argv)
  = EGL_PLATFORM_ANGLE_DEVICE_TYPE_SWIFTSHADER_ANGLE ->
  renderer (parsePlatformParams params0 argc argv)
  = EGL_PLATFORM_ANGLE_TYPE_VULKAN_ANGLE
  /\ 1 < argc
  /\ nth_error argv 1 = Some "--use-angle=swiftshader".
Proof.
  intros Hhw. unfold parsePlatformParams.
  destruct (argc >? 1) eqn:Hargc; cbn [deviceType];
    [|rewrite Hhw; discriminate].
  destruct (nth_error argv 1) as [argv1|]; cbn [deviceType];
    [|rewrite Hhw; discriminate].
  destruct (Z.eqb_spec
              (CString.strncmp argv1 kUseAngleArg (CString.strlen kUseAngleArg)) 0)
    as [Hzero|_]; cbn [deviceType renderer]; [|rewrite Hhw; discriminate].
  intros Hsw. apply GetDeviceTypeFromArg_swiftshader_eq in Hsw.
  apply strncmp_zero_prefix in Hzero. rewrite Hsw in *.
  split; [reflexivity|]. split; [now apply Z.gtb_lt|].
  rewrite Hzero. reflexivity.
Qed.

Lemma swiftshader_device_means_vulkan_witness :
  renderer (parsePlatformParams Mock.params0 2 ["prog"; "--use-angle=swiftshader"])
  = EGL_PLATFORM_ANGLE_TYPE_VULKAN_ANGLE
  /\ 1 < 2
  /\ nth_error ["prog"; "--use-angle=swiftshader"] 1
     = Some "--use-angle=swiftshader".
Proof.
  apply (swiftshader_device_means_vulkan Mock.params0 2
           ["prog"; "--use-angle=swiftshader"]); reflexivity.
Defined.

(** X3.  A flag whose token is not in the table is no error: the
    configuration becomes the default renderer on hardware, and the device
    type of the default-constructed parameters is overwritten all the
    same. *)
Theorem flag_with_unknown_token params0 prog token rest argc :
  1 < argc ->
  ~ In token (map fst kDisplayTypes) ->
  parsePlatformParams params0 argc (prog :: (kUseAngleArg ++ token)%string :: rest)
  = {| renderer := EGL_PLATFORM_ANGLE_TYPE_DEFAULT_ANGLE;
       deviceType := EGL_PLATFORM_ANGLE_DEVICE_TYPE_HARDWARE_ANGLE |}.
Proof.
  intros Hargc Hunknown. rewrite parsePlatformParams_flag by exact Hargc.
  f_equal.
  - now apply scanDisplayTypes_unknown.
  - apply GetDeviceTypeFromArg_other. intros ->. apply Hunknown.
    cbn. tauto.
Qed.

Lemma flag_with_unknown_token_witness :
  parsePlatformParams
    {| renderer := EGL_PLATFORM_ANGLE_TYPE_NULL_ANGLE;
       deviceType := EGL_PLATFORM_ANGLE_DEVICE_TYPE_SWIFTSHADER_ANGLE |}
    2 ["prog"; "--use-angle="]
  = {| renderer := EGL_PLATFORM_ANGLE_TYPE_DEFAULT_ANGLE;
       deviceType := EGL_PLATFORM_ANGLE_DEVICE_TYPE_HARDWARE_ANGLE |}.
Proof.
  apply (flag_with_unknown_token _ "prog" "" [] 2); [reflexivity|].
  cbn. intros H. repeat (destruct H as [H|H]; [discriminate|]). exact H.
Defined.

(** ** prepareToRun: order of the calls and the other members *)

Section PrepareMore.

Context {clock : Clock} {platform : Platform}.

(** X4.  [prepareToRun] always begins by showing the window and
    initialising the context with the configured platform parameters.  The
    initialize hook runs on a live context only: when it is called,
    [initializeGL] and [setSwapInterval(0)] have succeeded and the GLES
    entry points are loaded, in this order, and the timer is started
    afterwards exactly when the hook answers true. *)
Theorem prepareToRun_call_order w :
  let calls := calls_of (prepareToRun w) in
  let glInit :=
    EGLWindow_initializeGL (mPlatformParams (self w)) prepareToRun_configParams in
  (exists glOk rest, calls = OSWindow_setVisible true :: glInit glOk :: rest)
  /\ (forall ok, In (Hook_initialize ok) calls ->
        calls = [OSWindow_setVisible true; glInit true;
                 EGLWindow_setSwapInterval 0 true; angle_LoadGLES;
                 Hook_initialize ok]
                ++ (if ok then [Timer_start] else []))
  /\ (In Timer_start calls <-> result_of (prepareToRun w) = 0).
Proof.
  cbv zeta.
  prepare_cases w Hr Hs Hc; rewrite Hr, Hc; (split; [eauto|]); split.
  - intros ok Hin. cbn in Hin. intuition discriminate.
  - split; [cbn; intuition discriminate|discriminate].
  - intros ok Hin. cbn in Hin. intuition discriminate.
  - split; [cbn; intuition discriminate|discriminate].
  - intros ok Hin. cbn in Hin.
    destruct Hin as [H|[H|[H|[H|[H|[]]]]]]; try discriminate.
    now injection H as <-.
  - split; [cbn; intuition discriminate|discriminate].
  - intros ok Hin. cbn in Hin.
    destruct Hin as [H|[H|[H|[H|[H|[H|[]]]]]]]; try discriminate.
    now injection H as <-.
  - split; [reflexivity|]. intros _. cbn. tauto.
Qed.

(** X5.  [prepareToRun] leaves the name, the size and the platform
    parameters as they are; it resets [mPrevTime] to zero when it succeeds
    and does not touch it when it fails. *)
Theorem prepareToRun_members w :
  let after := self (world_of (prepareToRun w)) in
  mName after = mName (self w)
  /\ mWidth after = mWidth (self w)
  /\ mHeight after = mHeight (self w)
  /\ mPlatformParams after = mPlatformParams (self w)
  /\ (result_of (prepareToRun w) = 0 -> mPrevTime after = double_zero)
  /\ (result_of (prepareToRun w) <> 0 -> mPrevTime after = mPrevTime (self w)).
Proof.
  cbv zeta.
  prepare_cases w Hr Hs Hc; rewrite Hr, Hs; cbn;
    repeat split; intros; try reflexivity; try discriminate; congruence.
Qed.

(** X14.  With the hooks as the file defines them, [prepareToRun] cannot
    fail in the initialize hook: it returns 0 exactly when the context
    initialises and vsync can be disabled. *)
Theorem prepareToRun_base_hooks w :
  hooks_not_overridden ->
  initialize_failed (calls_of (prepareToRun w)) = false
  /\ (result_of (prepareToRun w) = 0
      <-> initializeGL_failed (calls_of (prepareToRun w)) = false
          /\ setSwapInterval_failed (calls_of (prepareToRun w)) = false).
Proof.
  intros (Hinit & _).
  assert (Hhook : forall ok, In (Hook_initialize ok) (calls_of (prepareToRun w))
                             -> ok = true).
  { intros ok. unfold prepareToRun, initialize, bind, call_void, call_with,
      hook_with, get_app, modify_app, ret. cbn [self ext fst snd].
    destruct (egl_initializeGL _ _ _) as [[|] e2]; cbn [negb self ext fst snd].
    2:{ cbn. intuition discriminate. }
    destruct (egl_setSwapInterval 0 e2) as [[|] e3]; cbn [negb self ext fst snd].
    2:{ cbn. intuition discriminate. }
    rewrite Hinit. unfold SampleApplication_initialize. cbn.
    intros [H|[H|[H|[H|[H|[H|[]]]]]]]; try discriminate.
    now injection H as <-. }
  prepare_cases w Hr Hs Hc; rewrite Hr, Hc in *; cbn.
  - split; [reflexivity|]. split; [discriminate|intros [H _]; discriminate].
  - split; [reflexivity|]. split; [discriminate|intros [_ H]; discriminate].
  - specialize (Hhook false). cbn in Hhook.
    assert (false = true) by (apply Hhook; tauto). discriminate.
  - split; [reflexivity|]. split; auto.
Qed.

End PrepareMore.

Lemma plain_hooks_not_overridden :
  hooks_not_overridden (platform := Plain.platform).
Proof. repeat split. Qed.

Lemma prepareToRun_base_hooks_witness :
  initialize_failed
    (calls_of (prepareToRun (platform := Plain.platform)
                 (Mock.sample Plain.vsynced))) = false
  /\ (result_of (prepareToRun (platform := Plain.platform)
                   (Mock.sample Plain.vsynced)) = 0
      <-> initializeGL_failed
            (calls_of (prepareToRun (platform := Plain.platform)
                         (Mock.sample Plain.vsynced))) = false
          /\ setSwapInterval_failed
               (calls_of (prepareToRun (platform := Plain.platform)
                            (Mock.sample Plain.vsynced))) = false).
Proof.
  apply (prepareToRun_base_hooks (platform := Plain.platform)
           (Mock.sample Plain.vsynced)).
  exact plain_hooks_not_overridden.
Defined.

(** ** runIteration: the step hook, the baseline and the drain *)

Section IterationMore.

Context {clock : Clock} {platform : Platform}.

Lemma pops_without calls (p : Call -> bool) :
  (forall event, p (OSWindow_popEvent event) = false) ->
  Forall is_pop calls -> filter p calls = [].
Proof.
  intros Hp. induction 1 as [|c calls Hc _ IH]; [reflexivity|].
  cbn [filter]. destruct c; try contradiction. now rewrite Hp.
Qed.

(** The calls of an iteration: the timer, the step hook, the drain and,
    when still running after the drain, draw, swap and the message pump. *)
Lemma runIteration_calls w :
  let t := timer_getElapsedTime (ext w) in
  let dt := static_cast_float (double_sub t (mPrevTime (self w))) in
  exists pops,
    Forall is_pop pops
    /\ calls_of (runIteration w)
       = Timer_getElapsedTime t :: Hook_step dt t :: pops
         ++ (if mRunning (self (world_of (untilDrained w)))
             then [Hook_draw; EGLWindow_swap; OSWindow_messageLoop] else []).
Proof.
  cbv zeta. rewrite runIteration_eq. cbv zeta.
  rewrite untilDrained_eq. cbv zeta.
  set (w1 := (after_hook _ (self w), hook_step _ _ (ext w))).
  destruct (drainEvents_spec (S (os_pending (ext w1))) w1) as [_ Hpops].
  exists (calls_of (drainEvents (S (os_pending (ext w1))) w1)).
  split; [exact Hpops|].
  unfold world_of at 1 2, calls_of at 1 2 4. cbn [fst snd].
  destruct (mRunning _); unfold calls_of; cbn [snd].
  - reflexivity.
  - now rewrite app_nil_r.
Qed.

Lemma set_mRunning_stopped a :
  mRunning a = false -> set_mRunning false a = a.
Proof.
  destruct a as [name width height running prevTime params]. cbn.
  now intros ->.
Qed.

Lemma after_hook_stopped exited a :
  mRunning a = false -> after_hook exited a = a.
Proof.
  intros Hstop. destruct exited; [now apply set_mRunning_stopped|reflexivity].
Qed.

(** X6.  Every iteration, stopped or not, reads the timer and then calls
    the step hook, once and before any event is popped, with the time
    elapsed since the stored baseline and the total elapsed time. *)
Theorem runIteration_steps_once w :
  let t := timer_getElapsedTime (ext w) in
  let dt := static_cast_float (double_sub t (mPrevTime (self w))) in
  exists rest,
    calls_of (runIteration w) = Timer_getElapsedTime t :: Hook_step dt t :: rest
    /\ count_calls is_step rest = 0%nat
    /\ count_calls is_step (calls_of (runIteration w)) = 1%nat.
Proof.
  cbv zeta. destruct (runIteration_calls w) as (pops & Hpops & Hcalls).
  cbv zeta in Hcalls. rewrite Hcalls. eexists. split; [reflexivity|].
  assert (Hrest : forall tail,
            filter is_step tail = [] ->
            count_calls is_step (pops ++ tail) = 0%nat).
  { intros tail Htail. unfold count_calls.
    rewrite filter_app, (pops_without pops is_step), Htail by auto.
    reflexivity. }
  split.
  - apply Hrest. now destruct (mRunning _).
  - unfold count_calls in *. cbn [filter is_step length].
    rewrite Hrest; [reflexivity|]. now destruct (mRunning _).
Qed.

(** X7.  The baseline carries from one call to the next: after a
    successful [prepareToRun] the step hook of the first iteration is given
    the time elapsed since zero; after an iteration that went on to draw,
    the next one is given the time elapsed since that iteration's reading,
    also when its draw hook called [exit]; after an iteration that found
    the application stopped after the drain, the baseline is the one from
    before.  The collaborators may have moved to any state [e] in
    between. *)
Theorem step_delta_between_calls w e :
  let t := timer_getElapsedTime e in
  let step_of (next : World) := nth_error (calls_of (runIteration next)) 1 in
  (result_of (prepareToRun w) = 0 ->
   step_of (self (world_of (prepareToRun w)), e)
   = Some (Hook_step (static_cast_float (double_sub t double_zero)) t))
  /\ step_of (self (world_of (runIteration w)), e)
     = Some (Hook_step
               (static_cast_float
                  (double_sub t
                     (if mRunning (self (world_of (untilDrained w)))
                      then timer_getElapsedTime (ext w)
                      else mPrevTime (self w))))
               t).
Proof.
  cbv zeta.
  assert (Hstep : forall next,
    nth_error (calls_of (runIteration next)) 1
    = Some (Hook_step
              (static_cast_float
                 (double_sub (timer_getElapsedTime (ext next))
                    (mPrevTime (self next))))
              (timer_getElapsedTime (ext next)))).
  { intros next. destruct (runIteration_calls next) as (pops & _ & Hcalls).
    cbv zeta in Hcalls. now rewrite Hcalls. }
  split.
  - intros Hok. rewrite Hstep. cbn [self ext fst snd].
    prepare_cases w Hr Hs Hc; rewrite Hr in Hok; try discriminate.
    rewrite Hs. reflexivity.
  - rewrite Hstep. cbn [self ext fst snd].
    destruct (untilDrained_spec w) as (Hself & Helapsed & _).
    rewrite runIteration_eq. cbv zeta.
    destruct (mRunning (self (world_of (untilDrained w)))) eqn:Hrun;
      unfold world_of at 1; cbn [fst snd self].
    + cbn [mPrevTime set_mPrevTime]. now rewrite Helapsed.
    + rewrite Hself.
      destruct (close_popped (calls_of (untilDrained w))); [reflexivity|].
      now destruct (step_exited w).
Qed.




Lemma runIteration_stopped w :
  mRunning (self w) = false ->
  self (world_of (runIteration w)) = self w
  /\ forall c, In c [Hook_draw; EGLWindow_swap; OSWindow_messageLoop] ->
               ~ In c (calls_of (runIteration w)).
Proof.
  intros Hstop.
  destruct (untilDrained_spec w) as (Hself & _ & Hquiet).
  assert (Hsame : self (world_of (untilDrained w)) = self w).
  { rewrite Hself. destruct (close_popped _).
    - now apply set_mRunning_stopped.
    - now apply after_hook_stopped. }
  rewrite runIteration_eq. cbv zeta. rewrite Hsame, Hstop.
  unfold world_of at 1, calls_of at 1. cbn [fst snd].
  split; [exact Hsame|exact Hquiet].
Qed.

(** X9.  A stopped application stays stopped: however many iterations
    are run and whatever the collaborators deliver in between, close events
    or not, no iteration draws, swaps or pumps the message loop, and all
    members keep their values. *)
Theorem stopped_stays_stopped outs : forall w,
  mRunning (self w) = false ->
  self (fst (iterations outs w)) = self w
  /\ forall c, In c [Hook_draw; EGLWindow_swap; OSWindow_messageLoop] ->
               ~ In c (snd (iterations outs w)).
Proof.
  induction outs as [|e outs IH]; intros w Hstop.
  - cbn. split; [reflexivity|]. intros c _ [].
  - cbn [iterations].
    destruct (runIteration_stopped (self w, e) Hstop) as [Hself Hquiet].
    change (self (self w, e)) with (self w) in Hself.
    destruct (runIteration (self w, e)) as [[r1 w1] c1].
    change (self w1 = self w) in Hself.
    change (forall c, In c [Hook_draw; EGLWindow_swap; OSWindow_messageLoop] ->
                      ~ In c c1) in Hquiet.
    assert (Hstop1 : mRunning (self w1) = false) by now rewrite Hself.
    destruct (IH w1 Hstop1) as [IHself IHquiet].
    destruct (iterations outs w1) as [w2 c2]. cbn [fst snd] in *.
    split.
    + now rewrite IHself, Hself.
    + intros c Hc Hin. apply in_app_or in Hin.
      destruct Hin as [Hin|Hin]; [exact (Hquiet c Hc Hin)|exact (IHquiet c Hc Hin)].
Qed.

End IterationMore.

(** ** run: failure of the window, frame counts and termination *)

Section RunMore.

Context {clock : Clock} {platform : Platform}.

Lemma run_explicit_eq fuel w :
  explicit_loop_path w ->
  let p := prepareToRun (afterWindowInitialize w) in
  let head := [OSWindow_initialize (mName (self w)) (mWidth (self w))
                 (mHeight (self w)) true; OSWindow_hasOwnLoop false] in
  run fuel w
  = if result_of p =? 0 then
      match whileRunning fuel (world_of p) with
      | None => None
      | Some (_, w3, c3) =>
          Some (result_of p, tornDown w3,
                head ++ calls_of p ++ c3 ++ teardown_calls)
      end
    else Some (result_of p, world_of p, head ++ calls_of p).
Proof.
  intros [Hwin Hown]. cbv zeta.
  unfold afterWindowInitialize in *.
  unfold run, bindO, lift, get_app, call_with, call_void, retO.
  fold (windowInitialize w).
  destruct (windowInitialize w) as [winOk e1]. cbn [self ext fst snd negb] in *.
  subst winOk. cbn [negb self ext fst snd]. rewrite Hown.
  cbn [self ext fst snd].
  destruct (prepareToRun (self w, e1)) as [[r2 w2] c2].
  unfold result_of, world_of, calls_of. cbn [fst snd].
  destruct (r2 =? 0); cbn [negb].
  - destruct (whileRunning fuel w2) as [[[u3 w3] c3]|]; [|reflexivity].
    rewrite teardown_eq. reflexivity.
  - cbn. now rewrite app_nil_r.
Qed.

(** X11.  When the window fails to initialise, [run] returns -1 at once,
    whatever the loop bound: that one call is the only one it makes, no
    hook runs, nothing is torn down, and the members are untouched. *)
Theorem run_window_failure fuel w :
  fst (windowInitialize w) = false ->
  run fuel w
  = Some (-1, afterWindowInitialize w,
          [OSWindow_initialize (mName (self w)) (mWidth (self w))
             (mHeight (self w)) false]).
Proof.
  intros Hwin. unfold afterWindowInitialize.
  unfold run, bindO, lift, get_app, call_with, call_void, retO.
  fold (windowInitialize w).
  destruct (windowInitialize w) as [winOk e1]. cbn [self ext fst snd negb] in *.
  subst winOk. reflexivity.
Qed.

Lemma prepareToRun_result w :
  result_of (prepareToRun w) = 0 \/ result_of (prepareToRun w) = -1.
Proof. prepare_cases w Hr Hs Hc; rewrite Hr; auto. Qed.

(** X12.  Without an own loop, a [run] that starts on a stopped
    application and returns leaves it stopped, however it went: window
    failure, failed preparation or a loop that ran to its end.  Its result
    is 0 or -1. *)
Theorem run_leaves_stopped fuel w r w' cs :
  os_hasOwnLoop (snd (windowInitialize w)) = false ->
  mRunning (self w) = false ->
  run fuel w = Some (r, w', cs) ->
  mRunning (self w') = false /\ (r = 0 \/ r = -1).
Proof.
  intros Hexplicit Hstop Hrun.
  destruct (run_cases _ _ _ _ _ Hrun)
    as [(_ & -> & -> & _)|[([_ Hown] & _)|
         [(_ & -> & Hne & -> & _)|(_ & _ & -> & w3 & c3 & Hloop & -> & _)]]].
  - split; [exact Hstop|now right].
  - congruence.
  - split; [|apply prepareToRun_result].
    rewrite prepareToRun_running.
    destruct (Z.eqb_spec (result_of (prepareToRun (afterWindowInitialize w))) 0)
      as [Hr|_]; [contradiction|].
    unfold afterWindowInitialize at 1. cbn [self fst]. now rewrite Hstop.
  - split; [|now left]. unfold tornDown. cbn [self fst].
    destruct (destroy_exits (ext w3)); [reflexivity|].
    exact (whileRunning_stops _ _ _ _ _ Hloop).
Qed.





Lemma runIteration_never_starts w :
  mRunning (self (world_of (runIteration w))) = true ->
  mRunning (self w) = true.
Proof.
  rewrite runIteration_running, untilDrained_running.
  intros H. apply andb_prop in H. destruct H as [H _].
  apply andb_prop in H. destruct H as [H _].
  now apply andb_prop in H.
Qed.

Lemma afterFrames_never_starts k : forall w,
  mRunning (self (afterFrames k w)) = true -> mRunning (self w) = true.
Proof.
  induction k as [|k IH]; intros w; cbn [afterFrames]; [auto|].
  intros H. apply runIteration_never_starts. now apply IH.
Qed.

(** The explicit loop returns with the first frame that pops a close
    event. *)
Lemma whileRunning_until_close k fuel : forall w,
  mRunning (self (afterFrames k w)) = true ->
  close_popped (calls_of (runIteration (afterFrames k w))) = true ->
  whileRunning (S (S (k + fuel))) w
  = Some (tt, afterFrames (S k) w, framesCalls (S k) w).
Proof.
  induction k as [|k IH]; intros w Hrun Hclose.
  - cbn [afterFrames framesCalls] in *. rewrite app_nil_r.
    now apply whileRunning_returns.
  - pose proof (afterFrames_never_starts _ _ Hrun) as Hrun0.
    cbn [afterFrames] in Hrun, Hclose.
    specialize (IH _ Hrun Hclose).
    change (afterFrames (S (S k)) w)
      with (afterFrames (S k) (world_of (runIteration w))).
    change (framesCalls (S (S k)) w)
      with (calls_of (runIteration w)
            ++ framesCalls (S k) (world_of (runIteration w))).
    change (whileRunning (S (S (S k + fuel))) w)
      with (bindO (lift (get_app mRunning))
              (fun running =>
                 if running
                 then bindO (lift runIteration)
                        (fun _ => whileRunning (S (S (k + fuel))))
                 else retO tt) w).
    unfold bindO at 1, lift at 1, get_app. rewrite Hrun0.
    unfold bindO, lift.
    destruct (runIteration w) as [[r1 w1] c1].
    unfold world_of, calls_of in *. cbn [fst snd] in *.
    rewrite IH. reflexivity.
Qed.

(** X13.  [run] returns once a close event arrives.  On the explicit-loop
    path, after a successful [prepareToRun], if the first [k] frames leave
    the application running and the next one pops a close event, then
    [run] returns 0 after exactly [k + 1] iterations followed by the
    teardown, for every loop bound of at least [k + 2]. *)
Theorem run_returns_at_close k fuel w :
  explicit_loop_path w ->
  result_of (prepareToRun (afterWindowInitialize w)) = 0 ->
  let prepared := world_of (prepareToRun (afterWindowInitialize w)) in
  mRunning (self (afterFrames k prepared)) = true ->
  close_popped (calls_of (runIteration (afterFrames k prepared))) = true ->
  run (S (S (k + fuel))) w
  = Some (0, tornDown (afterFrames (S k) prepared),
          [OSWindow_initialize (mName (self w)) (mWidth (self w))
             (mHeight (self w)) true; OSWindow_hasOwnLoop false]
          ++ calls_of (prepareToRun (afterWindowInitialize w))
          ++ framesCalls (S k) prepared ++ teardown_calls).
Proof.
  intros Hpath Hok. cbv zeta. intros Hrun Hclose.
  rewrite (run_explicit_eq _ w Hpath). cbv zeta.
  rewrite Hok. cbn [Z.eqb].
  now rewrite (whileRunning_until_close k fuel _ Hrun Hclose).
Qed.

End RunMore.

(** ** From the command line to the context, and what never changes *)

Section Configuration.

Context {clock : Clock} {platform : Platform}.

(** X15.  The back-end named on the command line is the one the context
    is initialised with: for an application constructed with
    "--use-angle=<token>" as its first argument, the second call of
    [prepareToRun], after showing the window, is [initializeGL] with the
    renderer and device type of the token and the 8/8/8/8/24/8
    configuration, whatever the collaborators have done in between. *)
Theorem command_line_reaches_context
  name prog token rest argc major minor width height params0 prevTime0 e :
  1 < argc ->
  let constructed :=
    SampleApplication name argc (prog :: (kUseAngleArg ++ token)%string :: rest)
      major minor width height params0 prevTime0 in
  let params := {| renderer := GetDisplayTypeFromArg token;
                   deviceType := GetDeviceTypeFromArg token |} in
  exists ok rest',
    calls_of (prepareToRun (self constructed, e))
    = OSWindow_setVisible true
      :: EGLWindow_initializeGL params
           {| redBits := 8; greenBits := 8; blueBits := 8; alphaBits := 8;
              depthBits := 24; stencilBits := 8 |} ok
      :: rest'.
Proof.
  intros Hargc. cbv zeta.
  assert (Hparams :
    mPlatformParams
      (self (self (SampleApplication name argc
                     (prog :: (kUseAngleArg ++ token)%string :: rest)
                     major minor width height params0 prevTime0), e))
    = {| renderer := GetDisplayTypeFromArg token;
         deviceType := GetDeviceTypeFromArg token |}).
  { unfold SampleApplication, self. cbn [fst mPlatformParams].
    now apply parsePlatformParams_flag. }
  match goal with
  | |- context [prepareToRun ?w] =>
      prepare_cases w Hr Hs Hc; rewrite Hc, Hparams; eauto
  end.
Qed.

Lemma same_configuration_refl a : same_configuration a a.
Proof. repeat split. Qed.

Lemma same_configuration_trans a b c :
  same_configuration a b -> same_configuration b c -> same_configuration a c.
Proof.
  unfold same_configuration. intuition congruence.
Qed.

Lemma prepareToRun_configuration w :
  same_configuration (self (world_of (prepareToRun w))) (self w).
Proof.
  prepare_cases w Hr Hs Hc; rewrite Hs; repeat split.
Qed.

Lemma after_hook_configuration exited a :
  same_configuration (after_hook exited a) a.
Proof. destruct exited; repeat split. Qed.

Lemma runIteration_configuration w :
  same_configuration (self (world_of (runIteration w))) (self w).
Proof.
  destruct (untilDrained_spec w) as (Hself & _ & _).
  rewrite runIteration_eq. cbv zeta.
  destruct (mRunning (self (world_of (untilDrained w))));
    unfold world_of at 1; cbn [fst snd self]; rewrite Hself;
    destruct (close_popped (calls_of (untilDrained w)));
    destruct (step_exited w); try destruct (draw_exited w); repeat split.
Qed.

Lemma whileRunning_configuration fuel : forall w u w' cs,
  whileRunning fuel w = Some (u, w', cs) ->
  same_configuration (self w') (self w).
Proof.
  induction fuel as [|fuel IH]; intros w u w' cs; [discriminate|].
  cbn [whileRunning]. unfold bindO, lift, get_app, retO.
  destruct (mRunning (self w)).
  - pose proof (runIteration_configuration w) as Hstep.
    destruct (runIteration w) as [[r1 w1] c1].
    unfold world_of in Hstep. cbn [fst snd] in Hstep.
    destruct (whileRunning fuel w1) as [[[u2 w2] c2]|] eqn:Hrest; [|discriminate].
    intros H. injection H as _ <- _.
    exact (same_configuration_trans _ _ _ (IH _ _ _ _ Hrest) Hstep).
  - intros H. injection H as _ <- _. apply same_configuration_refl.
Qed.

Lemma run_configuration fuel w r w' cs :
  os_hasOwnLoop (snd (windowInitialize w)) = false ->
  run fuel w = Some (r, w', cs) ->
  same_configuration (self w') (self w).
Proof.
  intros Hexplicit Hrun.
  destruct (run_cases _ _ _ _ _ Hrun)
    as [(_ & _ & -> & _)|[([_ Hown] & _)|
         [(_ & _ & _ & -> & _)|(_ & _ & _ & w3 & c3 & Hloop & -> & _)]]].
  - apply same_configuration_refl.
  - congruence.
  - apply (prepareToRun_configuration (afterWindowInitialize w)).
  - unfold tornDown. cbn [self fst].
    apply (same_configuration_trans _ (self w3));
      [apply after_hook_configuration|].
    apply (same_configuration_trans _ _ _
             (whileRunning_configuration _ _ _ _ _ Hloop)).
    apply (prepareToRun_configuration (afterWindowInitialize w)).
Qed.

Lemma evolves_configuration w0 w :
  evolves w0 w -> same_configuration (self w) (self w0).
Proof.
  induction 1 as [| w Hev IH | w Hev IH | w Hev IH
                  | fuel w r w' cs Hev IH Hexplicit Hrun | w e Hev IH].
  - apply same_configuration_refl.
  - exact (same_configuration_trans _ _ _ (prepareToRun_configuration w) IH).
  - exact (same_configuration_trans _ _ _ (runIteration_configuration w) IH).
  - exact IH.
  - exact (same_configuration_trans _ _ _
             (run_configuration _ _ _ _ _ Hexplicit Hrun) IH).
  - exact IH.
Qed.

(** X16.  What the constructor fixed is never changed: in every state an
    application moves to from its construction, through [prepareToRun],
    [runIteration], [exit] and a [run] without own loop, whatever the
    hooks and the collaborators do, the name, the size and the platform
    parameters are those it was constructed with; only [mRunning] and
    [mPrevTime] vary. *)
Theorem configuration_is_immutable
  name argc argv major minor width height params0 prevTime0 w :
  evolves (SampleApplication name argc argv major minor width height
             params0 prevTime0) w ->
  mName (self w) = name
  /\ mWidth (self w) = width
  /\ mHeight (self w) = height
  /\ mPlatformParams (self w) = parsePlatformParams params0 argc argv.
Proof.
  intros Hev. exact (evolves_configuration _ _ Hev).
Qed.

End Configuration.

(** ** The further properties on the test doubles *)

Section MoreOnTheTestDoubles.

Import Mock.


Lemma stopped_stays_stopped_witness :
  mRunning (self (sample idle)) = false
  /\ self (fst (iterations (platform := Mock.platform) [closing; idle] (sample idle))) = self (sample idle)
  /\ forall c, In c [Hook_draw; EGLWindow_swap; OSWindow_messageLoop] ->
               ~ In c (snd (iterations (platform := Mock.platform) [closing; idle] (sample idle))).
Proof.
  split; [reflexivity|].
  apply (stopped_stays_stopped (platform := Mock.platform) [closing; idle]
           (sample idle)). reflexivity.
Defined.

Lemma run_window_failure_witness :
  run 0 (sample Plain.windowless)
  = Some (-1, sample Plain.windowless,
          [OSWindow_initialize "sample" 1280 720 false]).
Proof.
  apply (run_window_failure 0 (sample Plain.windowless)). reflexivity.
Defined.

Lemma run_leaves_stopped_witness :
  run 3 (sample closing) = Some (0, stopped, closing_run)
  /\ mRunning (self stopped) = false /\ (0 = 0 \/ 0 = -1).
Proof.
  split; [vm_compute; reflexivity|].
  apply (run_leaves_stopped 3 (sample closing) 0 stopped closing_run).
  - reflexivity.
  - reflexivity.
  - vm_compute. reflexivity.
Defined.


(** A draw hook that calls [exit] ends the loop with a frame that is both
    stepped and drawn: as many steps as draws. *)
Example run_ended_by_draw :
  option_map
    (fun r => (result_of r, mRunning (self (world_of r)),
               count_calls is_step (calls_of r),
               count_calls is_draw (calls_of r)))
    (run (platform := quitting false false true) 2 (sample Plain.three_frames))
  = Some (0, false, 1%nat, 1%nat).
Proof. vm_compute. reflexivity. Qed.

(** A step hook that calls [exit] stops the frame without a close event:
    nothing is drawn. *)
Example frame_ended_by_step :
  calls_of (runIteration (platform := quitting false true false)
              (prepared (stocked [key] [] false 0)))
  = [Timer_getElapsedTime 0; Hook_step 0 0;
     OSWindow_popEvent (Some key); OSWindow_popEvent None].
Proof. vm_compute. reflexivity. Qed.

Lemma run_returns_at_close_witness :
  explicit_loop_path (sample Plain.three_frames)
  /\ run 4 (sample Plain.three_frames)
     = Some (0, tornDown (afterFrames 3 (prepared Plain.three_frames)),
             [OSWindow_initialize "sample" 1280 720 true;
              OSWindow_hasOwnLoop false]
             ++ calls_of (prepareToRun
                            (afterWindowInitialize (sample Plain.three_frames)))
             ++ framesCalls 3 (prepared Plain.three_frames) ++ teardown_calls).
Proof.
  split; [split; reflexivity|].
  apply (run_returns_at_close 2 0 (sample Plain.three_frames)).
  - split; reflexivity.
  - vm_compute. reflexivity.
  - vm_compute. reflexivity.
  - vm_compute. reflexivity.
Defined.

Lemma command_line_reaches_context_witness :
  exists ok rest',
    calls_of (prepareToRun
                (self (SampleApplication "sample" 2
                         ["prog"; "--use-angle=vulkan"] 2 0 1280 720
                         params0 0%Z), idle))
    = OSWindow_setVisible true
      :: EGLWindow_initializeGL
           {| renderer := GetDisplayTypeFromArg "vulkan";
              deviceType := GetDeviceTypeFromArg "vulkan" |}
           {| redBits := 8; greenBits := 8; blueBits := 8; alphaBits := 8;
              depthBits := 24; stencilBits := 8 |} ok
      :: rest'.
Proof.
  apply (command_line_reaches_context (platform := Mock.platform)
           "sample" "prog" "vulkan" [] 2 2 0 1280%N 720%N params0 0%Z idle).
  reflexivity.
Defined.

Lemma configuration_is_immutable_witness :
  mName (self Plain.three_frames_end) = "sample"
  /\ mWidth (self Plain.three_frames_end) = 1280%N
  /\ mHeight (self Plain.three_frames_end) = 720%N
  /\ mPlatformParams (self Plain.three_frames_end)
     = parsePlatformParams params0 1 ["prog"].
Proof.
  apply (configuration_is_immutable (platform := Mock.platform)
           "sample" 1 ["prog"] 2 0 1280%N 720%N params0 0%Z
           Plain.three_frames_end).
  apply (evolves_run (platform := Mock.platform) _ 4
           (sample Plain.three_frames) 0 Plain.three_frames_end
           Plain.three_frames_run).
  - apply (evolves_outside (platform := Mock.platform) _ _ Plain.three_frames).
    apply evolves_here.
  - reflexivity.
  - vm_compute. reflexivity.
Defined.

End MoreOnTheTestDoubles.
